(** * DigitDump: zero suppression, sorting and duplicate removal of TPC digits

    A shallow embedding of [Detectors/TPC/calibration/src/DigitDump.cxx]:
    the signal filter [updateCRU], the sort [sortDigits], the end-of-event
    step [endEvent], the table load [loadNoiseAndPedestal] and the duplicate
    scan [checkDuplicates], followed by the properties of the filter and
    of the sort-and-dedup engine.

    [Int_t], [int] and [size_t] values are integers ([Z], [nat]): the
    indices and time bins involved are small, and signed overflow would be
    undefined behaviour.  [Float_t] values are binary32 floats.  A method
    is a function from the object to an outcome that carries the object
    after the call and the trace of what the call did to the outside. *)

From Stdlib Require Import ZArith Bool Lia.
From Stdlib Require Import Floats.SpecFloat.
From stdpp Require Import base list sorting strings lexico.

Local Open Scope Z_scope.

(** ** Single-precision floating point ([Float_t]) *)

(** [Float_t] is IEEE-754 binary32: 24 bits of mantissa (with the implicit
    one), infinities at exponent 128.  Values are [spec_float]s, arithmetic
    rounds to nearest even, comparisons are false on NaN. *)
Module Float.

Definition prec : Z := 24.
Definition emax : Z := 128.

Definition Float_t : Type := spec_float.

Definition zero : Float_t := S754_zero false.
Definition nan : Float_t := S754_nan.
Definition infinity : Float_t := S754_infinity false.

(** conversion of an integer, as in [float x = n;] *)
Definition of_Z (n : Z) : Float_t := binary_normalize prec emax n 0 false.

Definition sub (x y : Float_t) : Float_t := SFsub prec emax x y.
Definition mul (x y : Float_t) : Float_t := SFmul prec emax x y.

(** [x < y], [x > y], [x <= y] of C++ on floats *)
Definition ltb (x y : Float_t) : bool := SFltb x y.
Definition gtb (x y : Float_t) : bool := SFltb y x.
Definition leb (x y : Float_t) : bool := SFleb x y.

Definition is_nan (x : Float_t) : bool :=
  match x with S754_nan => true | _ => false end.

Definition is_zero (x : Float_t) : bool :=
  match x with S754_zero _ => true | _ => false end.

(** a value a [float] variable can hold *)
Definition valid (x : Float_t) : bool := valid_binary prec emax x.

End Float.

Export Float(Float_t).

(** ** Data model *)

(** Modelled from the spec: the class [Digit] is declared outside the
    sources; "Digit: represents one accepted charge sample.  Attributes:
    partition index (sector), global row index, pad index, time-bin index,
    charge value".  The fields are named after the getters the code calls
    (the sector is that of the CRU), in the order of the constructor call
    [Digit(cru, charge, row, pad, time)]. *)
Record Digit : Type := mkDigit {
  getCRU : Z;
  getChargeFloat : Float_t;
  getRow : Z;
  getPad : Z;
  getTimeStamp : Z
}.

(** Modelled from the spec: the class [CalPad] is declared outside the
    sources; "mapping from (readout-chamber id, row, pad)" to a floating
    point value, read with [getValue]. *)
Record CalPad : Type := mkCalPad { getValue : Z -> Z -> Z -> Float_t }.

(** What [TFile::Open] hands back when it returns a non-null pointer. *)
Record TFile : Type := mkTFile {
  IsOpen : bool;
  IsZombie : bool;
  GetObject_Pedestals : option CalPad;
  GetObject_Noise : option CalPad
}.

Inductive RocType : Type := IROC | OROC.

Definition RocType_eqb (a b : RocType) : bool :=
  match a, b with
  | IROC, IROC | OROC, OROC => true
  | _, _ => false
  end.

(** An entry of [mPadMask]: [std::array<int, 3>] holding (roc, row, pad). *)
Definition PadCoord : Type := (Z * Z * Z)%type.

Definition PadCoord_eqb (a b : PadCoord) : bool :=
  let '(r1, w1, p1) := a in
  let '(r2, w2, p2) := b in
  (r1 =? r2) && (w1 =? w2) && (p1 =? p2).

(** Modelled from the spec: the members are declared in DigitDump.h, which
    is not among the sources; these are the members the functions of
    DigitDump.cxx read or write.  "Filter Configuration: first/last accepted
    time-bin, min/max accepted corrected-charge, noise-threshold multiplier",
    with "firstTimeBin, lastTimeBin (integers, inclusive bounds), ADCMin,
    ADCMax (numeric bounds on corrected charge), noiseThreshold (numeric
    multiplier)": the numeric ones are held as the [float] values the
    comparisons are evaluated on.  [mDigits] is the array of per-sector
    digit vectors; [mPedestal] and [mNoise] are [None] for a null pointer;
    [mTree] is the output tree, [None] for a null pointer, otherwise the
    entries filled so far (each entry a copy of all sector branches). *)
Record DigitDump : Type := mkDigitDump {
  mFirstTimeBin : Z;
  mLastTimeBin : Z;
  mADCMin : Float_t;
  mADCMax : Float_t;
  mNoiseThreshold : Float_t;
  mPedestalAndNoiseFile : string;
  mDigitFile : string;
  mPedestal : option CalPad;
  mNoise : option CalPad;
  mPadMask : list PadCoord;
  mDigits : list (list Digit);
  mTree : option (list (list (list Digit)));
  mInMemoryOnly : bool;
  mInitialized : bool
}.

Definition set_mDigits (v : list (list Digit)) (d : DigitDump) : DigitDump :=
  mkDigitDump (mFirstTimeBin d) (mLastTimeBin d) (mADCMin d) (mADCMax d)
    (mNoiseThreshold d) (mPedestalAndNoiseFile d) (mDigitFile d)
    (mPedestal d) (mNoise d) (mPadMask d) v (mTree d)
    (mInMemoryOnly d) (mInitialized d).

Definition set_tables (p n : option CalPad) (d : DigitDump) : DigitDump :=
  mkDigitDump (mFirstTimeBin d) (mLastTimeBin d) (mADCMin d) (mADCMax d)
    (mNoiseThreshold d) (mPedestalAndNoiseFile d) (mDigitFile d)
    p n (mPadMask d) (mDigits d) (mTree d)
    (mInMemoryOnly d) (mInitialized d).

Definition set_mTree (t : option (list (list (list Digit)))) (d : DigitDump)
  : DigitDump :=
  mkDigitDump (mFirstTimeBin d) (mLastTimeBin d) (mADCMin d) (mADCMax d)
    (mNoiseThreshold d) (mPedestalAndNoiseFile d) (mDigitFile d)
    (mPedestal d) (mNoise d) (mPadMask d) (mDigits d) t
    (mInMemoryOnly d) (mInitialized d).

Definition set_mInitialized (b : bool) (d : DigitDump) : DigitDump :=
  mkDigitDump (mFirstTimeBin d) (mLastTimeBin d) (mADCMin d) (mADCMax d)
    (mNoiseThreshold d) (mPedestalAndNoiseFile d) (mDigitFile d)
    (mPedestal d) (mNoise d) (mPadMask d) (mDigits d) (mTree d)
    (mInMemoryOnly d) b.

(** Modelled from the spec: [DigitDumpParam] is declared outside the
    sources; "Configuration input (supplied by an external
    config/parameter-set collaborator)" with the six values [init] copies. *)
Record DigitDumpParam : Type := mkDigitDumpParam {
  FirstTimeBin : Z;
  LastTimeBin : Z;
  ADCMin : Float_t;
  ADCMax : Float_t;
  NoiseThreshold : Float_t;
  PedestalAndNoiseFile : string
}.

Definition set_parameters (param : DigitDumpParam) (d : DigitDump) : DigitDump :=
  mkDigitDump (FirstTimeBin param) (LastTimeBin param) (ADCMin param)
    (ADCMax param) (NoiseThreshold param) (PedestalAndNoiseFile param)
    (mDigitFile d) (mPedestal d) (mNoise d) (mPadMask d) (mDigits d) (mTree d)
    (mInMemoryOnly d) (mInitialized d).

(** ** Collaborators *)

(** The geometry the filter consults: the accessors of [CRU] (a CRU is its
    number) and the two [Mapper] queries of [updateCRU]. *)
Class Geometry : Type := {
  region : Z -> Z;
  rocType : Z -> RocType;
  roc : Z -> Z;
  sector : Z -> nat;
  (** [getPadRegionInfo(region).getGlobalRowOffset()] *)
  getGlobalRowOffset : Z -> Z;
  getNumberOfRowsROC : Z -> Z
}.

(** [TFile::Open]: [None] is the null pointer. *)
Class FileSystem : Type := { TFile_Open : string -> option TFile }.

(** ** Effects *)

Inductive Table : Type := Pedestals | Noise.

(** What a method does to the outside, in program order: log lines, files
    opened, calibration values read. *)
Inductive Effect : Type :=
  | LOG_WARNING_no_file_name
  | LOG_FATAL_could_not_open (path : string)
  | LOG_debug_found_twice (b a : Digit)
  | LOG_warning_duplicates (removed : bool) (nDuplicates : nat) (iSec : nat)
  | Open (path : string)
  | Recreate (path : string)
  | Lookup (t : Table) (roc row pad : Z).

(** A call either returns (a value, the object after the call), is ended
    by [LOG(FATAL)], or has undefined behaviour (null pointer, index out of
    the array). *)
Inductive Outcome (A : Type) : Type :=
  | Returns (a : A) (self : DigitDump) (trace : list Effect)
  | Aborts (trace : list Effect)
  | Undefined (trace : list Effect).
Arguments Returns {A} a self trace.
Arguments Aborts {A} trace.
Arguments Undefined {A} trace.

Definition Method (A : Type) : Type := DigitDump -> Outcome A.

Definition after {A} (t : list Effect) (o : Outcome A) : Outcome A :=
  match o with
  | Returns a s t' => Returns a s (t ++ t')
  | Aborts t' => Aborts (t ++ t')
  | Undefined t' => Undefined (t ++ t')
  end.

#[global] Instance Method_ret : MRet Method :=
  fun A a s => Returns a s [].

#[global] Instance Method_bind : MBind Method :=
  fun A B f m s =>
    match m s with
    | Returns a s' t => after t (f a s')
    | Aborts t => Aborts t
    | Undefined t => Undefined t
    end.

Definition this : Method DigitDump := fun s => Returns s s [].
Definition assign (f : DigitDump -> DigitDump) : Method unit :=
  fun s => Returns tt (f s) [].
Definition emit (e : Effect) : Method unit := fun s => Returns tt s [e].
Definition abort {A} : Method A := fun _ => Aborts [].
Definition undefined {A} : Method A := fun _ => Undefined [].

(** ** The methods of DigitDump.cxx *)

Section Methods.
Context `{Geometry} `{FileSystem}.

(** [DigitDump::init], with the instance of the parameters it reads *)
Definition init (param : DigitDumpParam) : Method unit :=
  assign (set_parameters param).

(** [DigitDump::loadNoiseAndPedestal].  [LOG(FATAL)] ends the program, so
    nothing after it runs. *)
Definition loadNoiseAndPedestal : Method unit :=
  self ← this;
  if Nat.eqb (String.length (mPedestalAndNoiseFile self)) 0 then
    emit LOG_WARNING_no_file_name
  else
    emit (Open (mPedestalAndNoiseFile self)) ;;
    match TFile_Open (mPedestalAndNoiseFile self) with
    | None =>
        emit (LOG_FATAL_could_not_open (mPedestalAndNoiseFile self)) ;; abort
    | Some f =>
        if negb (IsOpen f) || IsZombie f then
          emit (LOG_FATAL_could_not_open (mPedestalAndNoiseFile self)) ;; abort
        else
          assign (set_tables (GetObject_Pedestals f) (GetObject_Noise f))
    end.

(** [DigitDump::setupOutputTree]: a new file, a new tree with no entry, one
    branch per sector bound to that sector's vector. *)
Definition setupOutputTree : Method unit :=
  self ← this;
  emit (Recreate (mDigitFile self)) ;;
  assign (set_mTree (Some [])).

(** [DigitDump::initInputOutput] *)
Definition initInputOutput : Method unit :=
  loadNoiseAndPedestal ;;
  self ← this;
  (if negb (mInMemoryOnly self) then setupOutputTree else mret tt) ;;
  assign (set_mInitialized true).

(** Modelled from the spec: [addDigit] is declared in DigitDump.h, which is
    not among the sources.  "Otherwise accept: emit a Digit with
    correctedCharge, append it to the partition's Digit Store"; the
    partition is the sector of the CRU.  A sector beyond the array is an
    access out of bounds. *)
Definition addDigit (cru : Z) (signal : Float_t) (rowInSector padInRow timeBin : Z)
  : Method unit :=
  self ← this;
  match mDigits self !! sector cru with
  | Some digits =>
      assign (set_mDigits
        (<[sector cru := digits ++ [mkDigit cru signal rowInSector padInRow timeBin]]>
           (mDigits self)))
  | None => undefined
  end.

(** Modelled from the spec: [clearDigits] is declared in DigitDump.h, which
    is not among the sources.  "clear() empties all partitions at
    end-of-event". *)
Definition clearDigits : Method unit :=
  assign (fun self => set_mDigits (map (fun _ => []) (mDigits self)) self).

(** [std::find(first, last, value)]: the position of the first element
    equal to [value], the length of the range when there is none. *)
Fixpoint std_find (l : list PadCoord) (value : PadCoord) : nat :=
  match l with
  | [] => 0%nat
  | x :: tl => if PadCoord_eqb x value then 0%nat else S (std_find tl value)
  end.

(** one calibration value, pointer checked as in [if (mPedestal) ...] *)
Definition calibration (t : Table) (table : option CalPad) (roc row pad : Z)
  : Method Float_t :=
  match table with
  | Some cal => emit (Lookup t roc row pad) ;; mret (getValue cal roc row pad)
  | None => mret Float.zero
  end.

(** [DigitDump::updateCRU] *)
Definition updateCRU (cru row pad timeBin : Z) (signal : Float_t) : Method Z :=
  self ← this;
  if (timeBin <? mFirstTimeBin self) || (timeBin >? mLastTimeBin self) then
    mret 0
  else
    (if negb (mInitialized self) then initInputOutput else mret tt) ;;
    self ← this;
    let globalRow := row + getGlobalRowOffset (region cru) in
    let sectorRow :=
      globalRow
      - (if RocType_eqb (rocType cru) OROC then 1 else 0) * getNumberOfRowsROC 0 in
    pedestal ← calibration Pedestals (mPedestal self) (roc cru) sectorRow pad;
    noise ← calibration Noise (mNoise self) (roc cru) sectorRow pad;
    let signalCorr := Float.sub signal pedestal in
    if Float.ltb signalCorr (mADCMin self) || Float.gtb signalCorr (mADCMax self)
    then mret 0
    else if Float.gtb (mNoiseThreshold self) Float.zero
            && Float.ltb signalCorr (Float.mul noise (mNoiseThreshold self))
    then mret 0
    else if negb (Nat.eqb (length (mPadMask self)) 0)
            && negb (Nat.eqb (std_find (mPadMask self) (roc cru, sectorRow, pad))
                             (length (mPadMask self)))
    then mret 1
    else
      addDigit cru signalCorr globalRow pad timeBin ;;
      mret 0.

End Methods.

(** ** Sorting and the end of an event *)

(** The comparison handed to [std::sort] in [sortDigits]. *)
Definition digitLess (a b : Digit) : bool :=
  if getTimeStamp a <? getTimeStamp b then true
  else if getTimeStamp a =? getTimeStamp b then
    if getRow a <? getRow b then true
    else if getRow a =? getRow b then getPad a <? getPad b
    else false
  else false.

(** [std::sort] is the standard library's; any implementation may be linked. *)
Class StdSort : Type :=
  { std_sort : (Digit -> Digit -> bool) -> list Digit -> list Digit }.

(** What the C++ standard asks of the comparison: a strict weak ordering. *)
Record StrictWeakOrdering (comp : Digit -> Digit -> bool) : Prop := {
  swo_irreflexive : forall x, comp x x = false;
  swo_transitive : forall x y z,
    comp x y = true -> comp y z = true -> comp x z = true;
  swo_comparison : forall x y z,
    comp x z = true -> comp x y = true \/ comp y z = true
}.

(** What the C++ standard promises of [std::sort] for such a comparison: the
    range is rearranged (a permutation) and sorted, i.e. no element is less
    than one before it.  The order of equivalent elements is left open. *)
Class StdSortConforms `{StdSort} : Prop := {
  std_sort_permutation : forall comp l,
    StrictWeakOrdering comp -> std_sort comp l ≡ₚ l;
  std_sort_sorted : forall comp l,
    StrictWeakOrdering comp ->
    StronglySorted (fun a b => comp b a = false) (std_sort comp l)
}.

Section SortAndDedup.
Context `{StdSort}.

(** [DigitDump::sortDigits] *)
Definition sortDigits : Method unit :=
  assign (fun self => set_mDigits (map (std_sort digitLess) (mDigits self)) self).

(** [mTree->Fill()]: every branch copies the vector it is bound to. *)
Definition TTree_Fill : Method unit :=
  self ← this;
  match mTree self with
  | Some entries => assign (set_mTree (Some (entries ++ [mDigits self])))
  | None => undefined
  end.

(** [DigitDump::endEvent] *)
Definition endEvent : Method unit :=
  sortDigits ;;
  TTree_Fill ;;
  clearDigits.

(** The lambda [isEqual] of [checkDuplicates], with the line it logs. *)
Definition isEqual (a b : Digit) : bool * list Effect :=
  if (getTimeStamp a =? getTimeStamp b) && (getRow a =? getRow b)
     && (getPad a =? getPad b)
  then (true, [LOG_debug_found_twice b a])
  else (false, []).

(** [std::unique(first, last, pred)]: all but the first element of every
    group of consecutive equivalent elements are dropped; each element is
    compared with the last one kept, [pred(kept, element)]. *)
Fixpoint std_unique_from (pred : Digit -> Digit -> bool * list Effect)
    (dest : Digit) (rest : list Digit) : list Digit * list Effect :=
  match rest with
  | [] => ([], [])
  | x :: tl =>
      let '(eq, t) := pred dest x in
      if eq then
        let '(kept, t') := std_unique_from pred dest tl in (kept, t ++ t')
      else
        let '(kept, t') := std_unique_from pred x tl in (x :: kept, t ++ t')
  end.

Definition std_unique (pred : Digit -> Digit -> bool * list Effect)
    (l : list Digit) : list Digit * list Effect :=
  match l with
  | [] => ([], [])
  | x :: tl => let '(kept, t) := std_unique_from pred x tl in (x :: kept, t)
  end.

(** The report-only loop: [while (++first != last) nDuplicates +=
    isEqual( *(first - 1), *first)]. *)
Fixpoint count_adjacent (pred : Digit -> Digit -> bool * list Effect)
    (prev : Digit) (rest : list Digit) : nat * list Effect :=
  match rest with
  | [] => (0%nat, [])
  | x :: tl =>
      let '(eq, t) := pred prev x in
      let '(n, t') := count_adjacent pred x tl in
      (((if eq then 1 else 0) + n)%nat, t ++ t')
  end.

(** The body of the sector loop of [checkDuplicates]: the vector after the
    pass, [nDuplicates], and what was logged.  An empty vector is skipped
    ([continue]), which counts nothing. *)
Definition checkSector (removeDuplicates : bool) (iSec : nat) (digits : list Digit)
  : list Digit * nat * list Effect :=
  match digits with
  | [] => ([], 0%nat, [])
  | front :: rest =>
      let '(digits', nDuplicates, t) :=
        if removeDuplicates then
          let '(kept, t) := std_unique isEqual digits in
          (kept, (length digits - length kept)%nat, t)
        else
          let '(n, t) := count_adjacent isEqual front rest in
          (digits, n, t) in
      (digits', nDuplicates,
       t ++ if Nat.eqb nDuplicates 0 then []
            else [LOG_warning_duplicates removeDuplicates nDuplicates iSec])
  end.

Definition emits (t : list Effect) : Method unit := fun s => Returns tt s t.

(** [DigitDump::checkDuplicates]: the loop runs over the sectors of the
    array in index order. *)
Definition checkDuplicates (removeDuplicates : bool) : Method unit :=
  sortDigits ;;
  self ← this;
  let scanned := imap (checkSector removeDuplicates) (mDigits self) in
  emits (concat (map snd scanned)) ;;
  assign (set_mDigits (map (fun r => fst (fst r)) scanned)).

End SortAndDedup.

(** ** The conditions of the filter, as the properties name them *)

Section FilterNotions.
Context `{Geometry}.

Definition globalRowOf (cru row : Z) : Z := row + getGlobalRowOffset (region cru).

(** the row within the chamber ("adjusted row") that indexes the tables *)
Definition sectorRowOf (cru row : Z) : Z :=
  match rocType cru with
  | OROC => globalRowOf cru row - getNumberOfRowsROC 0
  | IROC => globalRowOf cru row
  end.

(** pedestal and noise of a pad; an absent table means 0 *)
Definition pedestalOf (d : DigitDump) (cru row pad : Z) : Float_t :=
  match mPedestal d with
  | Some cal => getValue cal (roc cru) (sectorRowOf cru row) pad
  | None => Float.zero
  end.

Definition noiseOf (d : DigitDump) (cru row pad : Z) : Float_t :=
  match mNoise d with
  | Some cal => getValue cal (roc cru) (sectorRowOf cru row) pad
  | None => Float.zero
  end.

Definition correctedCharge (d : DigitDump) (cru row pad : Z) (rawSignal : Float_t)
  : Float_t :=
  Float.sub rawSignal (pedestalOf d cru row pad).

Definition inTimeWindow (d : DigitDump) (timeBin : Z) : Prop :=
  mFirstTimeBin d <= timeBin <= mLastTimeBin d.

(** the amplitude check lets the charge through *)
Definition passesAmplitude (d : DigitDump) (c : Float_t) : Prop :=
  Float.ltb c (mADCMin d) = false /\ Float.gtb c (mADCMax d) = false.

(** [noiseThreshold > 0 AND correctedCharge < noise * noiseThreshold] *)
Definition noiseCondition (d : DigitDump) (noise c : Float_t) : Prop :=
  Float.gtb (mNoiseThreshold d) Float.zero = true
  /\ Float.ltb c (Float.mul noise (mNoiseThreshold d)) = true.

Definition masked (d : DigitDump) (cru row pad : Z) : Prop :=
  (roc cru, sectorRowOf cru row, pad) ∈ mPadMask d.

#[global] Instance masked_dec d cru row pad : Decision (masked d cru row pad).
Proof. unfold masked. apply _. Defined.

(** the calibration values [updateCRU] reads, in program order *)
Definition lookups (d : DigitDump) (cru row pad : Z) : list Effect :=
  match mPedestal d with
  | Some _ => [Lookup Pedestals (roc cru) (sectorRowOf cru row) pad]
  | None => []
  end
  ++ match mNoise d with
     | Some _ => [Lookup Noise (roc cru) (sectorRowOf cru row) pad]
     | None => []
     end.

(** the digit [updateCRU] stores for a sample *)
Definition digitOf (d : DigitDump) (cru row pad timeBin : Z) (rawSignal : Float_t)
  : Digit :=
  mkDigit cru (correctedCharge d cru row pad rawSignal) (globalRowOf cru row) pad timeBin.

(** the store with one digit appended to the sector of the CRU *)
Definition appended (cru : Z) (digit : Digit) (store : list (list Digit))
  : list (list Digit) :=
  alter (fun digits => digits ++ [digit]) (sector cru) store.

(** What the checks of [updateCRU] decide on an initialised object. *)
Definition verdict (d : DigitDump) (cru row pad timeBin : Z) (signal : Float_t)
  : Outcome Z :=
  let c := correctedCharge d cru row pad signal in
  if Float.ltb c (mADCMin d) || Float.gtb c (mADCMax d) then Returns 0 d []
  else if Float.gtb (mNoiseThreshold d) Float.zero
          && Float.ltb c (Float.mul (noiseOf d cru row pad) (mNoiseThreshold d))
  then Returns 0 d []
  else if bool_decide (masked d cru row pad) then Returns 1 d []
  else match mDigits d !! sector cru with
       | Some _ =>
           Returns 0
             (set_mDigits
                (appended cru (digitOf d cru row pad timeBin signal) (mDigits d)) d)
             []
       | None => Undefined []
       end.

Context `{FileSystem}.

(** Lines 56-58 of [updateCRU]: the object the checks after them work on is
    the object itself once initialised, the outcome of [initInputOutput]
    on the first call. *)
Definition ensureInitialized : Method unit :=
  fun d => if mInitialized d then Returns tt d [] else initInputOutput d.

(** the resource behind a path cannot be used: no file, not open, or zombie *)
Definition unreadable (path : string) : Prop :=
  match TFile_Open path with
  | None => True
  | Some f => IsOpen f = false \/ IsZombie f = true
  end.

End FilterNotions.

(** the members initialisation leaves alone *)
Definition sameSettings (d d1 : DigitDump) : Prop :=
  mFirstTimeBin d1 = mFirstTimeBin d /\ mLastTimeBin d1 = mLastTimeBin d
  /\ mADCMin d1 = mADCMin d /\ mADCMax d1 = mADCMax d
  /\ mNoiseThreshold d1 = mNoiseThreshold d
  /\ mPadMask d1 = mPadMask d /\ mDigits d1 = mDigits d.


(** ** Notions the properties are stated with *)

(** The sort key of a digit. *)
Definition key (d : Digit) : Z * Z * Z := (getTimeStamp d, getRow d, getPad d).

(** the lexicographic order of the keys: strictly before, and not after *)
Definition keyLt (a b : Digit) : Prop := lexico (key a) (key b).
Definition keyLe (a b : Digit) : Prop := keyLt a b \/ key a = key b.

(** non-decreasing order of a partition, and strictly increasing order *)
Definition sortedDigits (l : list Digit) : Prop := StronglySorted keyLe l.
Definition strictlySorted (l : list Digit) : Prop := StronglySorted keyLt l.

(** no two entries with identical (time-bin, row, pad) *)
Definition duplicateFree (l : list Digit) : Prop := NoDup (map key l).

(** entries with a given key, in the order they have in [l] *)
Definition withKey (k : Z * Z * Z) (l : list Digit) : list Digit :=
  filter (fun d => key d = k) l.

(** A sort is stable on [l] when entries tied on the key keep their order. *)
Definition stableOn (sorted l : list Digit) : Prop :=
  forall k, withKey k sorted = withKey k l.

(** The maximal runs of adjacent entries with one key. *)
Fixpoint runs (l : list Digit) : list (list Digit) :=
  match l with
  | [] => []
  | x :: tl =>
      match runs tl with
      | (y :: run) :: more =>
          if decide (key x = key y) then (x :: y :: run) :: more
          else [x] :: (y :: run) :: more
      | _ => [[x]]
      end
  end.

(** the first entry of every run *)
Definition representatives (l : list Digit) : list Digit := omap head (runs l).

(** run length minus one, summed over the runs *)
Definition surplus (l : list Digit) : nat :=
  sum_list (map (fun run => pred (length run)) (runs l)).

(** the line [checkDuplicates] logs for a sector with [n] duplicates *)
Definition duplicateWarning (removed : bool) (n iSec : nat) : list Effect :=
  if Nat.eqb n 0 then [] else [LOG_warning_duplicates removed n iSec].

(** the vector a sector holds after the pass *)
Definition afterPass `{StdSort} (removeDuplicates : bool) (l : list Digit)
  : list Digit :=
  if removeDuplicates then representatives (std_sort digitLess l)
  else std_sort digitLess l.

(** ** Two implementations of [std::sort] *)

(** the order [std::sort] sorts by: [b] does not come before [a] *)
Definition notBefore (comp : Digit -> Digit -> bool) (a b : Digit) : Prop :=
  comp b a = false.

#[global] Instance notBefore_dec comp : RelDecision (notBefore comp) :=
  fun a b => bool_eq_dec (comp b a) false.

(** Both are merge sorts; the second one reads its input back to front. *)
Definition merge_StdSort : StdSort :=
  {| std_sort comp l := merge_sort (notBefore comp) l |}.

Definition backward_StdSort : StdSort :=
  {| std_sort comp l := merge_sort (notBefore comp) (reverse l) |}.

(** ** Sample collaborators and objects *)

(** The layout of the TPC read-out: ten CRUs per sector, the first four on
    the inner chamber; 36 sectors; 63 rows in an inner chamber. *)
Definition tpcGeometry : Geometry := {|
  region cru := cru mod 10;
  rocType cru := if cru mod 10 <? 4 then IROC else OROC;
  roc cru := cru / 10 + (if cru mod 10 <? 4 then 0 else 36);
  sector cru := Z.to_nat (cru / 10);
  getGlobalRowOffset region :=
    nth (Z.to_nat region) [0; 17; 32; 48; 63; 81; 97; 113; 127; 140] 0;
  getNumberOfRowsROC roc := if roc <? 36 then 63 else 89
|}.

(** Two calibration files: one with pedestal 2 and noise 4 on every pad,
    one whose pedestals are not numbers (dead pads); no other file exists. *)
Definition constantTables (pedestal noise : Float_t) : TFile := {|
  IsOpen := true;
  IsZombie := false;
  GetObject_Pedestals := Some (mkCalPad (fun _ _ _ => pedestal));
  GetObject_Noise := Some (mkCalPad (fun _ _ _ => noise))
|}.

Definition calibFiles : FileSystem := {|
  TFile_Open path :=
    if String.eqb path "calib.root" then
      Some (constantTables (Float.of_Z 2) (Float.of_Z 4))
    else if String.eqb path "dead.root" then
      Some (constantTables Float.nan Float.zero)
    else None
|}.

(** an object as [init] leaves it: time bins 0 to 1000, 36 empty sectors *)
Definition configured (adcMin adcMax noiseThreshold : Float_t) (path : string)
    (mask : list PadCoord) (inMemoryOnly : bool) : DigitDump := {|
  mFirstTimeBin := 0;
  mLastTimeBin := 1000;
  mADCMin := adcMin;
  mADCMax := adcMax;
  mNoiseThreshold := noiseThreshold;
  mPedestalAndNoiseFile := path;
  mDigitFile := "digits.root";
  mPedestal := None;
  mNoise := None;
  mPadMask := mask;
  mDigits := replicate 36 [];
  mTree := None;
  mInMemoryOnly := inMemoryOnly;
  mInitialized := false
|}.

(** amplitude window 0 to 100 with the calibration file, noise rejection
    off ([-1]) or at three sigma *)
Definition calibrated (noiseThreshold : Z) : DigitDump :=
  configured (Float.of_Z 0) (Float.of_Z 100) (Float.of_Z noiseThreshold)
    "calib.root" [] true.

Definition deadPads : DigitDump :=
  configured (Float.of_Z 0) (Float.of_Z 100) (Float.of_Z (-1)) "dead.root" [] true.

Definition missingFile : DigitDump :=
  configured (Float.of_Z 0) (Float.of_Z 100) (Float.of_Z (-1)) "none.root" [] true.

Definition uncalibrated : DigitDump :=
  configured (Float.of_Z (-100)) (Float.of_Z 100) (Float.of_Z (-1)) "" [] true.

Definition infiniteThreshold : DigitDump :=
  configured (Float.of_Z (-100)) (Float.of_Z 100) Float.infinity "" [] true.

(** CRU 5 is on the outer chamber of sector 0 (ROC 36); its row 2 is row 83
    of the sector and row 20 of the chamber *)
Definition maskedPad : DigitDump :=
  configured (Float.of_Z (-100)) (Float.of_Z 100) (Float.of_Z (-1)) ""
    [(36, 20, 3)] true.

Definition toFile : DigitDump :=
  configured (Float.of_Z 0) (Float.of_Z 100) (Float.of_Z (-1)) "" [] false.

(** a digit by (time, row, pad, charge), and an object holding a partition
    in sector 0 *)
Definition dg (time row pad charge : Z) : Digit :=
  mkDigit 0 (Float.of_Z charge) row pad time.

Definition holding (partition : list Digit) (tree : option (list (list (list Digit))))
  : DigitDump :=
  set_mTree tree (set_mDigits (<[0%nat := partition]> (replicate 36 [])) uncalibrated).

(** ** Notions of the further properties *)

Definition set_mPadMask (m : list PadCoord) (d : DigitDump) : DigitDump :=
  mkDigitDump (mFirstTimeBin d) (mLastTimeBin d) (mADCMin d) (mADCMax d)
    (mNoiseThreshold d) (mPedestalAndNoiseFile d) (mDigitFile d)
    (mPedestal d) (mNoise d) m (mDigits d) (mTree d)
    (mInMemoryOnly d) (mInitialized d).

(** the same outcome, on an object changed by [f] *)
Definition onObject {A} (f : DigitDump -> DigitDump) (o : Outcome A) : Outcome A :=
  match o with
  | Returns a s t => Returns a (f s) t
  | Aborts t => Aborts t
  | Undefined t => Undefined t
  end.

(** every stored digit has its time bin inside the window of the object and
    sits in the sector of its CRU *)
Definition storeInvariant `{Geometry} (d : DigitDump) : Prop :=
  forall (iSec : nat) (l : list Digit),
    mDigits d !! iSec = Some l ->
    Forall (fun digit => inTimeWindow d (getTimeStamp digit)
                         /\ sector (getCRU digit) = iSec) l.

(** a debug line of the duplicate scan *)
Definition isDebugLine (e : Effect) : Prop :=
  match e with LOG_debug_found_twice _ _ => True | _ => False end.

(** the members other than the store *)
Definition sameButStore (d d' : DigitDump) : Prop :=
  set_mDigits (mDigits d) d' = d.

(** a file that opens, with or without the two objects *)
Definition partialFiles (pedestals noise : option CalPad) : FileSystem :=
  {| TFile_Open _ := Some (mkTFile true false pedestals noise) |}.

(** more sample objects: a positive noise threshold without any table, and
    the masked pad listed twice after another pad *)
Definition thresholdOnly : DigitDump :=
  configured (Float.of_Z (-100)) (Float.of_Z 100) (Float.of_Z 3) "" [] true.

Definition maskedPadAgain : list PadCoord := [(36, 20, 3); (0, 0, 0); (36, 20, 3)].

Definition maskedOrNot : DigitDump :=
  configured (Float.of_Z (-100)) (Float.of_Z 100) (Float.of_Z (-1)) ""
    [(0, 0, 0); (36, 20, 3)] true.

(** * Properties *)

(** ** Running a method *)

Lemma after_nil {A} (o : Outcome A) : after [] o = o.
Proof. by destruct o. Qed.

Lemma after_after {A} (t1 t2 : list Effect) (o : Outcome A) :
  after t1 (after t2 o) = after (t1 ++ t2) o.
Proof. destruct o; simpl; by rewrite (assoc_L (++)). Qed.

Lemma bind_Returns {A B} (m : Method A) (f : A -> Method B) s a s' t :
  m s = Returns a s' t -> (m ≫= f) s = after t (f a s').
Proof. unfold mbind, Method_bind. by intros ->. Qed.

Lemma bind_Aborts {A B} (m : Method A) (f : A -> Method B) s t :
  m s = Aborts t -> (m ≫= f) s = Aborts t.
Proof. unfold mbind, Method_bind. by intros ->. Qed.

Ltac run :=
  unfold mbind, Method_bind, mret, Method_ret, this, assign, emit, emits,
    abort, undefined; simpl.

(** ** Comparisons of [Float_t] *)

Module FloatFacts.
Import Float.

Lemma compare_swap (x y : Float_t) :
  SFcompare y x = CompOpp <$> SFcompare x y.
Proof.
  destruct x as [sx|sx| |sx mx ex], y as [sy|sy| |sy my ey]; simpl;
    try reflexivity; try (by destruct sx); try (by destruct sy);
    try (by destruct sx, sy).
  pose proof (Pos.compare_cont_antisym mx my Eq) as Hm. simpl in Hm.
  destruct sx, sy; simpl; try reflexivity;
    rewrite (Z.compare_antisym ex ey); destruct (ex ?= ey); simpl;
    try reflexivity; rewrite <- Hm;
    by destruct (Pos.compare_cont Eq mx my).
Qed.

Lemma compare_nan (x y : Float_t) :
  is_nan x = false -> is_nan y = false -> is_Some (SFcompare x y).
Proof. destruct x, y; simpl; by eauto. Qed.

(** [!(x < y)] is [y <= x] when both are numbers *)
Lemma not_ltb_leb (x y : Float_t) :
  is_nan x = false -> is_nan y = false -> ltb x y = false -> leb y x = true.
Proof.
  intros Hx Hy. unfold ltb, leb, SFltb, SFleb. rewrite (compare_swap x y).
  destruct (compare_nan x y Hx Hy) as [c ->]. by destruct c.
Qed.

Lemma leb_not_ltb (x y : Float_t) : leb x y = true -> ltb y x = false.
Proof.
  unfold ltb, leb, SFltb, SFleb. rewrite (compare_swap x y).
  by destruct (SFcompare x y) as [[]|].
Qed.

Lemma leb_not_nan (x y : Float_t) :
  leb x y = true -> is_nan x = false /\ is_nan y = false.
Proof. by destruct x, y. Qed.

(** a negative number is below every nonnegative one *)
Lemma ltb_negative_nonnegative (c p : Float_t) :
  ltb c zero = true -> leb zero p = true -> ltb c p = true.
Proof.
  destruct c as [s|s| |s m e], p as [s'|s'| |s' m' e']; simpl;
    try discriminate; try (by destruct s); try (by destruct s');
    by destruct s, s'.
Qed.

(** the product of a nonnegative and a positive number is nonnegative,
    unless it is not a number *)
Lemma mul_nonnegative (n thr : Float_t) :
  leb zero n = true -> ltb zero thr = true ->
  is_nan (mul n thr) = false -> leb zero (mul n thr) = true.
Proof.
  destruct n as [s|s| |s m e], thr as [s'|s'| |s' m' e']; simpl;
    try discriminate; try (by destruct s); try (by destruct s');
    try (by destruct s, s').
  destruct s, s'; try discriminate. intros _ _.
  unfold mul, SFmul, binary_round_aux; simpl xorb.
  destruct (shr_fexp _ _ _ _ _) as [mrs' e1].
  destruct (shr_fexp _ _ _ _ _) as [mrs'' e2].
  destruct (shr_m mrs''); try done.
  by destruct (e2 <=? emax - prec).
Qed.

(** rounding a nonnegative mantissa never yields NaN *)
Lemma shr_1_nonnegative (mrs : shr_record) :
  0 <= shr_m mrs -> 0 <= shr_m (shr_1 mrs).
Proof. destruct mrs as [[|[p|p|]|p] r s]; simpl; lia. Qed.

Lemma iter_shr_1_nonnegative (p : positive) (mrs : shr_record) :
  0 <= shr_m mrs -> 0 <= shr_m (SpecFloat.iter_pos shr_1 p mrs).
Proof.
  revert mrs. induction p as [p IH|p IH|]; intros mrs Hm; simpl.
  - by apply IH, IH, shr_1_nonnegative.
  - by apply IH, IH.
  - by apply shr_1_nonnegative.
Qed.

Lemma shr_fexp_nonnegative (m e : Z) (l : location) :
  0 <= m -> 0 <= shr_m (fst (shr_fexp prec emax m e l)).
Proof.
  intros Hm. unfold shr_fexp, shr.
  assert (0 <= shr_m (shr_record_of_loc m l)) as H0 by by destruct l as [|[]].
  destruct (fexp prec emax (Zdigits2 m + e) - e); simpl; try done.
  by apply iter_shr_1_nonnegative.
Qed.

Lemma round_nearest_even_nonnegative (m : Z) (l : location) :
  0 <= m -> 0 <= round_nearest_even m l.
Proof.
  intros Hm. destruct l as [|[]]; simpl; try lia. destruct (Z.even m); lia.
Qed.

Lemma binary_round_aux_number (s : bool) (m e : Z) (l : location) :
  0 <= m -> is_nan (binary_round_aux prec emax s m e l) = false.
Proof.
  intros Hm. unfold binary_round_aux.
  pose proof (shr_fexp_nonnegative m e l Hm) as H1.
  destruct (shr_fexp prec emax m e l) as [mrs' e1]. simpl in H1.
  pose proof (shr_fexp_nonnegative _ e1 loc_Exact
                (round_nearest_even_nonnegative _ (loc_of_shr_record mrs') H1)) as H2.
  destruct (shr_fexp prec emax _ e1 loc_Exact) as [mrs'' e2]. simpl in H2.
  destruct (shr_m mrs''); [done| |lia].
  by destruct (e2 <=? emax - prec).
Qed.

(** the product of a nonnegative and a positive number is not a number only
    for zero times infinity *)
Lemma mul_nan_zero_infinity (n thr : Float_t) :
  leb zero n = true -> ltb zero thr = true ->
  is_nan (mul n thr) = true <-> is_zero n = true /\ thr = infinity.
Proof.
  intros Hn Ht.
  assert (thr = infinity \/ exists m e, thr = S754_finite false m e) as [->|(m' & e' & ->)].
  { destruct thr as [s'|[]| |[] m' e']; try done; eauto. }
  - destruct n as [s|[]| |[] m e]; try done;
      simpl; (split; [done | by intros []]).
  - destruct n as [s|[]| |[] m e]; try done;
      try (simpl; split; [done | by intros []]).
    unfold mul, SFmul. rewrite binary_round_aux_number by done.
    split; [done | by intros []].
Qed.

End FloatFacts.

(** ** The filter *)

Section FilterProperties.
Context `{Geometry} `{FileSystem}.

Lemma insert_as_alter {A} (f : A -> A) (l : list A) (i : nat) (x : A) :
  l !! i = Some x -> <[i := f x]> l = alter f i l.
Proof.
  intros Hx. rewrite list_insert_alter. apply list_alter_ext; [|done].
  intros y Hy. congruence.
Qed.

Lemma std_find_spec (l : list PadCoord) (x : PadCoord) :
  (std_find l x < length l)%nat <-> x ∈ l.
Proof.
  induction l as [|y l IH]; simpl.
  - split; [lia | by intros ?%elem_of_nil].
  - destruct x as [[a b] c], y as [[a' b'] c']; simpl.
    destruct (Z.eqb_spec a' a), (Z.eqb_spec b' b), (Z.eqb_spec c' c); simpl;
      subst; rewrite elem_of_cons;
      try (split; [intros; by left | lia]);
      (split; [intros; right; apply IH; lia
              | intros [?|?]; [congruence | apply IH in H1; lia]]).
Qed.

Lemma std_find_le (l : list PadCoord) (x : PadCoord) :
  (std_find l x <= length l)%nat.
Proof. induction l; simpl; [lia|]. destruct (PadCoord_eqb _ _); lia. Qed.

Lemma std_find_found (l : list PadCoord) (x : PadCoord) :
  negb (Nat.eqb (length l) 0) && negb (Nat.eqb (std_find l x) (length l)) = true
  <-> x ∈ l.
Proof.
  rewrite <- std_find_spec. pose proof (std_find_le l x).
  destruct l as [|y l]; simpl in *; [lia|].
  destruct (PadCoord_eqb y x); simpl; [lia|].
  destruct (Nat.eqb_spec (std_find l x) (length l)); simpl; split; (done || lia).
Qed.

(** the condition of line 87 *)
Lemma mask_test d cru row pad :
  negb (Nat.eqb (length (mPadMask d)) 0)
  && negb (Nat.eqb (std_find (mPadMask d) (roc cru, sectorRowOf cru row, pad))
                   (length (mPadMask d)))
  = bool_decide (masked d cru row pad).
Proof.
  pose proof (std_find_found (mPadMask d) (roc cru, sectorRowOf cru row, pad)) as Hs.
  destruct (negb _ && negb _); symmetry.
  - apply bool_decide_eq_true, Hs. done.
  - apply bool_decide_eq_false. intros Hm%Hs. done.
Qed.

Lemma sectorRow_code cru row :
  globalRowOf cru row
  - (if RocType_eqb (rocType cru) OROC then 1 else 0) * getNumberOfRowsROC 0
  = sectorRowOf cru row.
Proof. unfold sectorRowOf. destruct (rocType cru); simpl; lia. Qed.

Lemma updateCRU_outside d cru row pad timeBin signal :
  timeBin < mFirstTimeBin d \/ timeBin > mLastTimeBin d ->
  updateCRU cru row pad timeBin signal d = Returns 0 d [].
Proof.
  intros Hout. unfold updateCRU. run.
  destruct (Z.ltb_spec timeBin (mFirstTimeBin d)); [done|].
  destruct (Z.gtb_spec timeBin (mLastTimeBin d)); [done|]. lia.
Qed.

Lemma updateCRU_inside d cru row pad timeBin signal :
  inTimeWindow d timeBin ->
  updateCRU cru row pad timeBin signal d =
  match ensureInitialized d with
  | Returns _ d1 t1 =>
      after (t1 ++ lookups d1 cru row pad) (verdict d1 cru row pad timeBin signal)
  | Aborts t => Aborts t
  | Undefined t => Undefined t
  end.
Proof.
  intros [Hlo Hhi]. unfold updateCRU, ensureInitialized. run.
  destruct (Z.ltb_spec timeBin (mFirstTimeBin d)); [lia|].
  destruct (Z.gtb_spec timeBin (mLastTimeBin d)); [lia|]. simpl.
  rewrite after_nil.
  change (row + getGlobalRowOffset (region cru)) with (globalRowOf cru row).
  rewrite sectorRow_code.
  destruct (mInitialized d); simpl;
    [ rename d into d1
    | destruct (initInputOutput d) as [[] d1 t1| |]; simpl; try done ].
  all: rewrite mask_test.
  all: unfold verdict, lookups, calibration, addDigit, digitOf, appended,
         correctedCharge, pedestalOf, noiseOf; run.
  all: destruct (mPedestal d1) as [ped|], (mNoise d1) as [noi|]; simpl.
  all: repeat match goal with
         | |- context [if ?b then _ else _] =>
             match type of b with bool => destruct b; simpl end
         end; try reflexivity.
  all: destruct (mDigits d1 !! sector cru) as [digits|] eqn:Hd; simpl;
         try reflexivity.
  all: rewrite ?app_nil_r, <- ?app_assoc; simpl; try reflexivity.
  all: by rewrite <- (insert_as_alter _ _ _ _ Hd).
Qed.

(** *** Initialisation *)

Lemma length_zero_empty (s : string) :
  Nat.eqb (String.length s) 0 = true <-> s = EmptyString.
Proof. destruct s; simpl; split; (done || discriminate). Qed.

Lemma loadNoiseAndPedestal_empty d :
  mPedestalAndNoiseFile d = EmptyString ->
  loadNoiseAndPedestal d = Returns tt d [LOG_WARNING_no_file_name].
Proof. intros Hp. unfold loadNoiseAndPedestal. run. by rewrite Hp. Qed.

Lemma loadNoiseAndPedestal_unreadable d :
  mPedestalAndNoiseFile d <> EmptyString ->
  unreadable (mPedestalAndNoiseFile d) ->
  loadNoiseAndPedestal d =
  Aborts [Open (mPedestalAndNoiseFile d);
          LOG_FATAL_could_not_open (mPedestalAndNoiseFile d)].
Proof.
  intros Hp Hu. unfold loadNoiseAndPedestal, unreadable in *. run.
  destruct (Nat.eqb _ 0) eqn:E; [by apply length_zero_empty in E|]. simpl.
  destruct (TFile_Open _) as [f|]; simpl; [|done].
  destruct Hu as [-> | ->]; simpl; [done|]. by rewrite orb_true_r.
Qed.

Lemma loadNoiseAndPedestal_readable d f :
  mPedestalAndNoiseFile d <> EmptyString ->
  TFile_Open (mPedestalAndNoiseFile d) = Some f ->
  IsOpen f = true -> IsZombie f = false ->
  loadNoiseAndPedestal d =
  Returns tt (set_tables (GetObject_Pedestals f) (GetObject_Noise f) d)
    [Open (mPedestalAndNoiseFile d)].
Proof.
  intros Hp Hf Ho Hz. unfold loadNoiseAndPedestal. run.
  destruct (Nat.eqb _ 0) eqn:E; [by apply length_zero_empty in E|]. simpl.
  by rewrite Hf, Ho, Hz.
Qed.

Lemma loadNoiseAndPedestal_settings d d1 t1 :
  loadNoiseAndPedestal d = Returns tt d1 t1 ->
  sameSettings d d1 /\ mInMemoryOnly d1 = mInMemoryOnly d
  /\ mDigitFile d1 = mDigitFile d.
Proof.
  unfold loadNoiseAndPedestal, sameSettings. run.
  destruct (Nat.eqb _ 0); simpl; [by intros [= <- <-]|].
  destruct (TFile_Open _) as [f|]; simpl; [|done].
  destruct (negb (IsOpen f) || IsZombie f); simpl; [done|].
  by intros [= <- <-].
Qed.

Lemma initInputOutput_settings d d1 t1 :
  initInputOutput d = Returns tt d1 t1 ->
  sameSettings d d1 /\ mInitialized d1 = true.
Proof.
  unfold initInputOutput. run.
  destruct (loadNoiseAndPedestal d) as [[] d0 t0| |] eqn:Hl; simpl; [|done..].
  apply loadNoiseAndPedestal_settings in Hl as (Hs & Hm & _).
  unfold setupOutputTree, sameSettings in *. run.
  destruct (mInMemoryOnly d0); simpl; intros [= <- <-]; simpl; done.
Qed.

Lemma ensureInitialized_settings d d1 t1 :
  ensureInitialized d = Returns tt d1 t1 ->
  sameSettings d d1 /\ mInitialized d1 = true.
Proof.
  unfold ensureInitialized. destruct (mInitialized d) eqn:Hi.
  - intros [= <- <-]. by unfold sameSettings.
  - apply initInputOutput_settings.
Qed.

(** *** The tests of the filter as conditions *)

Lemma outside_window d timeBin :
  ~ inTimeWindow d timeBin <->
  timeBin < mFirstTimeBin d \/ timeBin > mLastTimeBin d.
Proof. unfold inTimeWindow. lia. Qed.

Lemma amplitude_test d c :
  Float.ltb c (mADCMin d) || Float.gtb c (mADCMax d) = false
  <-> passesAmplitude d c.
Proof. unfold passesAmplitude. by rewrite orb_false_iff. Qed.

Lemma noise_test d n c :
  Float.gtb (mNoiseThreshold d) Float.zero
  && Float.ltb c (Float.mul n (mNoiseThreshold d)) = true
  <-> noiseCondition d n c.
Proof. unfold noiseCondition. by rewrite andb_true_iff. Qed.

Lemma appended_changes cru digit (store : list (list Digit)) :
  is_Some (store !! sector cru) -> appended cru digit store <> store.
Proof.
  intros [digits Hd] Heq.
  assert (appended cru digit store !! sector cru = Some (digits ++ [digit])) as Ha.
  { unfold appended. by rewrite list_lookup_alter_eq, Hd. }
  rewrite Heq, Hd in Ha. injection Ha as Ha.
  apply (f_equal length) in Ha. rewrite length_app in Ha. simpl in Ha. lia.
Qed.

(** The four ways the checks end, for an object that is initialised. *)
Lemma verdict_amplitude d cru row pad timeBin signal :
  ~ passesAmplitude d (correctedCharge d cru row pad signal) ->
  verdict d cru row pad timeBin signal = Returns 0 d [].
Proof.
  intros Hn. unfold verdict. simpl.
  destruct (_ || _) eqn:E; [done|]. by apply amplitude_test in E.
Qed.

Lemma verdict_noise d cru row pad timeBin signal :
  passesAmplitude d (correctedCharge d cru row pad signal) ->
  noiseCondition d (noiseOf d cru row pad) (correctedCharge d cru row pad signal) ->
  verdict d cru row pad timeBin signal = Returns 0 d [].
Proof.
  intros Ha%amplitude_test Hn%noise_test. unfold verdict. simpl.
  by rewrite Ha, Hn.
Qed.

Lemma verdict_masked d cru row pad timeBin signal :
  passesAmplitude d (correctedCharge d cru row pad signal) ->
  ~ noiseCondition d (noiseOf d cru row pad) (correctedCharge d cru row pad signal) ->
  masked d cru row pad ->
  verdict d cru row pad timeBin signal = Returns 1 d [].
Proof.
  intros Ha%amplitude_test Hn Hm. unfold verdict. simpl. rewrite Ha.
  destruct (_ && _) eqn:E; [by apply noise_test in E|].
  by rewrite bool_decide_eq_true_2.
Qed.

Lemma verdict_accept d cru row pad timeBin signal :
  passesAmplitude d (correctedCharge d cru row pad signal) ->
  ~ noiseCondition d (noiseOf d cru row pad) (correctedCharge d cru row pad signal) ->
  ~ masked d cru row pad ->
  verdict d cru row pad timeBin signal =
  match mDigits d !! sector cru with
  | Some _ =>
      Returns 0
        (set_mDigits
           (appended cru (digitOf d cru row pad timeBin signal) (mDigits d)) d) []
  | None => Undefined []
  end.
Proof.
  intros Ha%amplitude_test Hn Hm. unfold verdict. simpl. rewrite Ha.
  destruct (_ && _) eqn:E; [by apply noise_test in E|].
  by rewrite bool_decide_eq_false_2.
Qed.

(** *** Claims about the filter *)

(** C6.  A sample whose time bin lies before [mFirstTimeBin] or after
    [mLastTimeBin] is rejected: [updateCRU] returns 0 and hands the object
    back as it was, so no digit is appended and the object is not even
    initialised.  This holds for every signal, every pair of tables, every
    pad mask and every file system, and the trace is empty: no file is
    opened and no table value is read before the decision. *)
Theorem time_window_rejects_first d cru row pad timeBin signal :
  timeBin < mFirstTimeBin d \/ timeBin > mLastTimeBin d ->
  updateCRU cru row pad timeBin signal d = Returns 0 d [].
Proof. apply updateCRU_outside. Qed.

(** C10.  A call of [updateCRU] that returns gives 1 or 0, and 1 exactly
    when the sample is inside the time window, passes the amplitude check,
    is not rejected as noise and its (roc, sector row, pad) is in the
    (then non-empty) pad mask; every other sample, accepted or rejected,
    gives 0.  The call does return whenever, for a sample inside the time
    window, the object is or can be initialised and the sector of the CRU
    is one of the array. *)
Theorem return_value_flags_masked_only d cru row pad timeBin signal :
  (forall r d' t,
     updateCRU cru row pad timeBin signal d = Returns r d' t ->
     (r = 1 \/ r = 0)
     /\ (r = 1 <->
         inTimeWindow d timeBin
         /\ passesAmplitude d' (correctedCharge d' cru row pad signal)
         /\ ~ noiseCondition d' (noiseOf d' cru row pad)
                (correctedCharge d' cru row pad signal)
         /\ masked d' cru row pad
         /\ mPadMask d' <> []))
  /\ (forall d1 t1,
        (inTimeWindow d timeBin ->
         ensureInitialized d = Returns tt d1 t1
         /\ is_Some (mDigits d1 !! sector cru)) ->
        exists r d' t, updateCRU cru row pad timeBin signal d = Returns r d' t).
Proof.
  destruct (decide (inTimeWindow d timeBin)) as [Hin|Hout].
  2:{ rewrite updateCRU_outside by by apply outside_window.
      split; [|by eauto]. intros r d' t [= <- <- <-].
      split; [by right|]. split; [done|]. by intros (? & _). }
  rewrite (updateCRU_inside _ _ _ _ _ _ Hin).
  split.
  - intros r d' t. destruct (ensureInitialized d) as [[] d1 t1| |]; [|done..].
    set (c := correctedCharge d1 cru row pad signal).
    set (n := noiseOf d1 cru row pad).
    destruct (decide (Float.ltb c (mADCMin d1) || Float.gtb c (mADCMax d1) = false))
      as [Ha%amplitude_test|Ha].
    2:{ rewrite verdict_amplitude by by rewrite <- amplitude_test.
        intros [= <- <- _]. split; [by right|]. split; [done|].
        intros (_ & Hp%amplitude_test & _). done. }
    destruct (decide (Float.gtb (mNoiseThreshold d1) Float.zero
                      && Float.ltb c (Float.mul n (mNoiseThreshold d1)) = true))
      as [Hn%noise_test|Hn].
    { rewrite verdict_noise by done. intros [= <- <- _].
      split; [by right|]. split; [done|]. intros (_ & _ & Hnn & _). done. }
    rewrite noise_test in Hn.
    destruct (decide (masked d1 cru row pad)) as [Hm|Hm].
    { rewrite verdict_masked by done. intros [= <- <- _].
      split; [by left|]. split; [|done]. intros _. do 4 (split; [done|]).
      intros Hnil. unfold masked in Hm. rewrite Hnil in Hm.
      by apply elem_of_nil in Hm. }
    rewrite verdict_accept by done.
    destruct (mDigits d1 !! sector cru); [|done]. intros [= <- <- _].
    split; [by right|]. split; [done|]. intros (_ & _ & _ & Hmm & _). done.
  - intros d1 t1 Hready. destruct (Hready Hin) as [-> [digits Hd]].
    unfold verdict. rewrite Hd.
    repeat match goal with
           | |- context [if ?b then _ else _] => destruct b
           end; simpl; eauto.
Qed.

(** C8.  A sample outside the time window is rejected with 0 before the
    mask is looked at.  For a sample inside it, on the object as
    initialised: a sample that passes the amplitude and noise checks and
    whose (roc, sector row, pad) is in the pad mask is rejected, the store
    is left as it was; a sample that fails the amplitude or the noise check
    is rejected with 0 whatever the mask holds, so the mask is consulted
    after the other checks only; and with an empty mask a sample that
    passes the three checks is appended. *)
Theorem masked_pad_rejected_last d cru row pad timeBin signal :
  (~ inTimeWindow d timeBin ->
   updateCRU cru row pad timeBin signal d = Returns 0 d [])
  /\ (inTimeWindow d timeBin ->
      forall d1 t1,
      ensureInitialized d = Returns tt d1 t1 ->
      let c := correctedCharge d1 cru row pad signal in
      let n := noiseOf d1 cru row pad in
      (passesAmplitude d1 c -> ~ noiseCondition d1 n c -> masked d1 cru row pad ->
       updateCRU cru row pad timeBin signal d
         = Returns 1 d1 (t1 ++ lookups d1 cru row pad)
       /\ mDigits d1 = mDigits d)
      /\ (~ passesAmplitude d1 c \/ noiseCondition d1 n c ->
          updateCRU cru row pad timeBin signal d
            = Returns 0 d1 (t1 ++ lookups d1 cru row pad))
      /\ (passesAmplitude d1 c -> ~ noiseCondition d1 n c -> mPadMask d1 = [] ->
          is_Some (mDigits d1 !! sector cru) ->
          updateCRU cru row pad timeBin signal d
            = Returns 0
                (set_mDigits
                   (appended cru (digitOf d1 cru row pad timeBin signal)
                      (mDigits d1))
                   d1)
                (t1 ++ lookups d1 cru row pad))).
Proof.
  split; [intros Hout; by apply updateCRU_outside, outside_window|].
  intros Hin d1 t1 Hinit c n.
  rewrite (updateCRU_inside _ _ _ _ _ _ Hin), Hinit.
  split; [|split].
  - intros Ha Hn Hm. rewrite verdict_masked by done. simpl.
    rewrite app_nil_r. split; [done|].
    by apply ensureInitialized_settings in Hinit as ((_&_&_&_&_&_&?) & _).
  - intros [Ha|Hn].
    + rewrite verdict_amplitude by done. simpl. by rewrite app_nil_r.
    + destruct (decide (Float.ltb c (mADCMin d1) || Float.gtb c (mADCMax d1)
                        = false)) as [Ha%amplitude_test|Ha].
      * rewrite verdict_noise by done. simpl. by rewrite app_nil_r.
      * rewrite verdict_amplitude by by rewrite <- amplitude_test.
        simpl. by rewrite app_nil_r.
  - intros Ha Hn Hnil [digits Hd]. rewrite verdict_accept, Hd; try done.
    + simpl. by rewrite app_nil_r.
    + unfold masked. rewrite Hnil. by intros ?%elem_of_nil.
Qed.

(** C7, as amended.  For a sample inside the time window that passes the
    amplitude check, on the object as initialised: the call ends as a
    rejection (returns 0, object untouched) exactly when
    [noiseThreshold > 0] and [correctedCharge < noise * noiseThreshold];
    with [noiseThreshold <= 0] that condition fails for every noise value;
    with [noiseThreshold > 0], a nonnegative noise value and a product
    [noise * noiseThreshold] that is a number, every negative corrected
    charge meets it; that product fails to be a number only for noise 0
    and an infinite threshold. *)
Theorem noise_rejection_condition d cru row pad timeBin signal d1 t1 :
  inTimeWindow d timeBin ->
  ensureInitialized d = Returns tt d1 t1 ->
  let c := correctedCharge d1 cru row pad signal in
  let n := noiseOf d1 cru row pad in
  passesAmplitude d1 c ->
  (updateCRU cru row pad timeBin signal d
     = Returns 0 d1 (t1 ++ lookups d1 cru row pad)
   <-> noiseCondition d1 n c)
  /\ (Float.leb (mNoiseThreshold d1) Float.zero = true ->
      forall noise, ~ noiseCondition d1 noise c)
  /\ (Float.gtb (mNoiseThreshold d1) Float.zero = true ->
      Float.leb Float.zero n = true ->
      Float.ltb c Float.zero = true ->
      Float.is_nan (Float.mul n (mNoiseThreshold d1)) = false ->
      noiseCondition d1 n c)
  /\ (Float.gtb (mNoiseThreshold d1) Float.zero = true ->
      Float.leb Float.zero n = true ->
      (Float.is_nan (Float.mul n (mNoiseThreshold d1)) = true
       <-> Float.is_zero n = true /\ mNoiseThreshold d1 = Float.infinity)).
Proof.
  intros Hin Hinit c n Ha.
  rewrite (updateCRU_inside _ _ _ _ _ _ Hin), Hinit.
  split; [|split; [|split]].
  - split.
    + intros Hr.
      destruct (decide (Float.gtb (mNoiseThreshold d1) Float.zero
                        && Float.ltb c (Float.mul n (mNoiseThreshold d1)) = true))
        as [Hn%noise_test|Hn]; [done|]. exfalso.
      rewrite noise_test in Hn.
      destruct (decide (masked d1 cru row pad)) as [Hm|Hm].
      * rewrite verdict_masked in Hr by done. simpl in Hr. done.
      * rewrite verdict_accept in Hr by done.
        destruct (mDigits d1 !! sector cru) as [digits|] eqn:Hd; simpl in Hr;
          [|done].
        injection Hr as Hr _. apply (f_equal mDigits) in Hr. simpl in Hr.
        by eapply appended_changes in Hr; [|rewrite Hd].
    + intros Hn. rewrite verdict_noise by done. simpl. by rewrite app_nil_r.
  - intros Hle noise [Hgt _]. apply FloatFacts.leb_not_ltb in Hle.
    unfold Float.gtb in Hgt. unfold Float.ltb in Hle. congruence.
  - intros Hgt Hnn Hneg Hnan. split; [done|].
    apply FloatFacts.ltb_negative_nonnegative; [done|].
    by apply FloatFacts.mul_nonnegative.
  - intros Hgt Hnn. by apply FloatFacts.mul_nan_zero_infinity.
Qed.

(** C1, as amended.  A call of [updateCRU] that changes the store appends
    exactly one digit to the sector of the CRU; its charge is
    [rawSignal - pedestal] (pedestal 0 without a table), and this charge is
    neither below [ADCMin] nor above [ADCMax]: when charge and bounds are
    numbers, [ADCMin <= correctedCharge <= ADCMax]. *)
Theorem accepted_charge_within_bounds d cru row pad timeBin signal r d' t :
  updateCRU cru row pad timeBin signal d = Returns r d' t ->
  mDigits d' <> mDigits d ->
  let c := Float.sub signal (pedestalOf d' cru row pad) in
  mDigits d'
    = appended cru (mkDigit cru c (globalRowOf cru row) pad timeBin) (mDigits d)
  /\ is_Some (mDigits d !! sector cru)
  /\ mADCMin d' = mADCMin d /\ mADCMax d' = mADCMax d
  /\ Float.ltb c (mADCMin d) = false
  /\ Float.gtb c (mADCMax d) = false
  /\ (Float.is_nan c = false ->
      Float.is_nan (mADCMin d) = false -> Float.is_nan (mADCMax d) = false ->
      Float.leb (mADCMin d) c = true /\ Float.leb c (mADCMax d) = true).
Proof.
  intros Hr Hchg.
  destruct (decide (inTimeWindow d timeBin)) as [Hin|Hout].
  2:{ rewrite updateCRU_outside in Hr by by apply outside_window.
      by injection Hr as _ <- _. }
  rewrite (updateCRU_inside _ _ _ _ _ _ Hin) in Hr.
  destruct (ensureInitialized d) as [[] d1 t1| |] eqn:Hinit; [|done..].
  apply ensureInitialized_settings in Hinit
    as ((_ & _ & Hmin & Hmax & _ & _ & Hdig) & _).
  unfold verdict in Hr. fold (correctedCharge d1 cru row pad signal) in Hr.
  destruct (_ || _) eqn:Ha in Hr;
    [simpl in Hr; injection Hr as _ <- _; congruence|].
  destruct (_ && _) in Hr;
    [simpl in Hr; injection Hr as _ <- _; congruence|].
  destruct (bool_decide _) in Hr;
    [simpl in Hr; injection Hr as _ <- _; congruence|].
  destruct (mDigits d1 !! sector cru) as [digits|] eqn:Hd; [|done].
  simpl in Hr. injection Hr as _ <- _. simpl.
  apply amplitude_test in Ha as [Hlo Hhi].
  unfold correctedCharge in *. rewrite Hmin in Hlo. rewrite Hmax in Hhi.
  change (pedestalOf (set_mDigits _ d1) cru row pad) with (pedestalOf d1 cru row pad).
  rewrite Hdig in *. unfold digitOf, correctedCharge.
  do 4 (split; [by eauto|]). do 2 (split; [done|]).
  intros Hc Hnmin Hnmax. split.
  - by apply FloatFacts.not_ltb_leb.
  - by apply FloatFacts.not_ltb_leb.
Qed.

(** C9.  With an empty path [loadNoiseAndPedestal] logs the warning and
    returns with the object as it was, so an object without tables keeps
    none and every pedestal and noise value is 0, and the first call of
    [updateCRU] initialises the object; with a non-empty path whose file
    cannot be used it ends the program after the fatal log line, and so
    does every call of [updateCRU] that needs the initialisation. *)
Theorem table_load_soft_or_fatal d :
  (mPedestalAndNoiseFile d = EmptyString ->
   loadNoiseAndPedestal d = Returns tt d [LOG_WARNING_no_file_name]
   /\ (mPedestal d = None -> mNoise d = None ->
       forall cru row pad,
         pedestalOf d cru row pad = Float.zero
         /\ noiseOf d cru row pad = Float.zero)
   /\ (mInitialized d = false ->
       exists d1 t1,
         ensureInitialized d = Returns tt d1 t1
         /\ In LOG_WARNING_no_file_name t1
         /\ mPedestal d1 = mPedestal d /\ mNoise d1 = mNoise d
         /\ mInitialized d1 = true))
  /\ (mPedestalAndNoiseFile d <> EmptyString ->
      unreadable (mPedestalAndNoiseFile d) ->
      loadNoiseAndPedestal d
        = Aborts [Open (mPedestalAndNoiseFile d);
                  LOG_FATAL_could_not_open (mPedestalAndNoiseFile d)]
      /\ (mInitialized d = false ->
          forall cru row pad timeBin signal,
            inTimeWindow d timeBin ->
            updateCRU cru row pad timeBin signal d
              = Aborts [Open (mPedestalAndNoiseFile d);
                        LOG_FATAL_could_not_open (mPedestalAndNoiseFile d)])).
Proof.
  split.
  - intros Hp. split; [by apply loadNoiseAndPedestal_empty|]. split.
    + intros Hped Hnoi cru row pad. unfold pedestalOf, noiseOf.
      by rewrite Hped, Hnoi.
    + intros Hi. unfold ensureInitialized, initInputOutput. rewrite Hi.
      rewrite (bind_Returns _ _ _ _ _ _ (loadNoiseAndPedestal_empty d Hp)).
      unfold setupOutputTree. run.
      destruct (mInMemoryOnly d); simpl; eexists _, _;
        (split; [reflexivity|]); simpl; by auto.
  - intros Hp Hu. pose proof (loadNoiseAndPedestal_unreadable d Hp Hu) as Hl.
    split; [done|].
    intros Hi cru row pad timeBin signal Hin.
    rewrite (updateCRU_inside _ _ _ _ _ _ Hin).
    unfold ensureInitialized, initInputOutput. rewrite Hi.
    by rewrite (bind_Aborts _ _ _ _ Hl).
Qed.

End FilterProperties.

(** ** The order of the digits *)

Lemma digitLess_keyLt (a b : Digit) : digitLess a b = true <-> keyLt a b.
Proof.
  unfold digitLess, keyLt, key.
  assert (forall t r p t' r' p' : Z,
    lexico (t, r, p) (t', r', p') <->
    t < t' \/ t = t' /\ (r < r' \/ r = r' /\ p < p')) as ->.
  { intros. unfold lexico, prod_lexico; simpl.
    unfold lexico, prod_lexico, Z_lexico; simpl.
    split.
    - intros [[?|[-> ?]]|[[= -> ->] ?]]; auto.
    - intros [?|[-> [?|[-> ?]]]]; auto. }
  destruct (Z.ltb_spec (getTimeStamp a) (getTimeStamp b)),
    (Z.eqb_spec (getTimeStamp a) (getTimeStamp b)),
    (Z.ltb_spec (getRow a) (getRow b)),
    (Z.eqb_spec (getRow a) (getRow b)),
    (Z.ltb_spec (getPad a) (getPad b)); split; intros; try done; lia.
Qed.

Lemma isEqual_key (a b : Digit) : fst (isEqual a b) = true <-> key a = key b.
Proof.
  unfold isEqual, key.
  destruct (Z.eqb_spec (getTimeStamp a) (getTimeStamp b)),
    (Z.eqb_spec (getRow a) (getRow b)),
    (Z.eqb_spec (getPad a) (getPad b)); simpl; split; try done; congruence.
Qed.

#[global] Instance keyLt_strict : StrictOrder keyLt.
Proof.
  split.
  - intros a. unfold complement, keyLt. apply irreflexivity, _.
  - intros a b c. unfold keyLt. apply transitivity.
Qed.

Lemma keyLt_trichotomy (a b : Digit) : keyLt a b \/ key a = key b \/ keyLt b a.
Proof.
  unfold keyLt. destruct (trichotomyT lexico (key a) (key b)) as [[?|?]|?]; auto.
Qed.

Lemma digitLess_false (a b : Digit) : digitLess b a = false <-> keyLe a b.
Proof.
  unfold keyLe. rewrite <- not_true_iff_false, digitLess_keyLt. split.
  - intros Hn. destruct (keyLt_trichotomy a b) as [?|[?|?]]; by auto.
  - intros [Hlt|Heq] Hba.
    + by apply (irreflexivity keyLt a); trans b.
    + unfold keyLt in Hba. rewrite Heq in Hba.
      by apply (irreflexivity lexico (key b)).
Qed.

#[global] Instance keyLe_trans : Transitive keyLe.
Proof.
  intros a b c [H1|H1] [H2|H2]; unfold keyLe, keyLt in *.
  - left. by trans (key b).
  - left. by rewrite <- H2.
  - left. by rewrite H1.
  - right. congruence.
Qed.

Lemma digitLess_swo : StrictWeakOrdering digitLess.
Proof.
  split.
  - intros x. apply digitLess_false. by right.
  - intros x y z. rewrite !digitLess_keyLt. apply transitivity.
  - intros x y z. rewrite !digitLess_keyLt. intros Hxz.
    destruct (keyLt_trichotomy x y) as [?|[Heq|?]]; [by left| |].
    + right. unfold keyLt in *. by rewrite <- Heq.
    + right. by trans x.
Qed.

Lemma StronglySorted_weaken {A} (R1 R2 : relation A) (l : list A) :
  (forall x y, R1 x y -> R2 x y) -> StronglySorted R1 l -> StronglySorted R2 l.
Proof.
  intros HR Hs. rewrite <- (list_fmap_id l).
  by apply (StronglySorted_fmap id R1 R2).
Qed.

Lemma strictlySorted_sorted (l : list Digit) : strictlySorted l -> sortedDigits l.
Proof. apply StronglySorted_weaken. intros x y ?. by left. Qed.

Lemma strictlySorted_duplicateFree (l : list Digit) :
  strictlySorted l -> duplicateFree l.
Proof.
  unfold duplicateFree. induction 1 as [|x l Hs IH Hx]; simpl; constructor; [|done].
  intros (y & Hk & Hy)%list_elem_of_fmap.
  rewrite Forall_forall in Hx. specialize (Hx y Hy).
  unfold keyLt in Hx. rewrite Hk in Hx. by apply (irreflexivity lexico (key y)).
Qed.

Lemma sorted_duplicateFree_strict (l : list Digit) :
  sortedDigits l -> duplicateFree l -> strictlySorted l.
Proof.
  unfold duplicateFree. induction 1 as [|x l Hs IH Hx]; simpl; intros Hnd.
  - constructor.
  - apply NoDup_cons in Hnd as [Hnotin Hnd]. constructor; [by apply IH|].
    rewrite Forall_forall in Hx |- *. intros y Hy.
    destruct (Hx y Hy) as [?|Heq]; [done|]. exfalso. apply Hnotin.
    rewrite Heq. by apply list_elem_of_fmap_2.
Qed.

(** two strictly sorted partitions with the same entries are equal *)
Lemma strictlySorted_unique (l1 l2 : list Digit) :
  strictlySorted l1 -> strictlySorted l2 -> l1 ≡ₚ l2 -> l1 = l2.
Proof.
  intros H1 H2 Hp.
  assert (AntiSymm (=) keyLt).
  { intros x y Hxy Hyx. exfalso. by apply (irreflexivity keyLt x); trans y. }
  by apply (StronglySorted_unique keyLt).
Qed.

(** ** What a conforming [std::sort] does to a partition *)

Section SortFacts.
Context `{StdSortConforms}.

Lemma sort_permutation (l : list Digit) : std_sort digitLess l ≡ₚ l.
Proof. apply std_sort_permutation, digitLess_swo. Qed.

Lemma sort_sorted (l : list Digit) : sortedDigits (std_sort digitLess l).
Proof.
  eapply StronglySorted_weaken; [|apply std_sort_sorted, digitLess_swo].
  intros x y. apply digitLess_false.
Qed.

Lemma sort_duplicateFree (l : list Digit) :
  duplicateFree (std_sort digitLess l) <-> duplicateFree l.
Proof.
  unfold duplicateFree. by rewrite (sort_permutation l).
Qed.

Lemma sort_strictlySorted (l : list Digit) :
  strictlySorted l -> std_sort digitLess l = l.
Proof.
  intros Hs. apply strictlySorted_unique; [|done|apply sort_permutation].
  apply sorted_duplicateFree_strict; [apply sort_sorted|].
  by apply sort_duplicateFree, strictlySorted_duplicateFree.
Qed.

Lemma sort_keys (l : list Digit) :
  sortedDigits l -> map key (std_sort digitLess l) = map key l.
Proof.
  intros Hs.
  assert (AntiSymm (=) (fun k1 k2 : Z * Z * Z => lexico k1 k2 \/ k1 = k2)).
  { intros k1 k2 [H1|H1] [H2|H2]; [|by subst..].
    exfalso. by apply (irreflexivity lexico k1); trans k2. }
  apply (StronglySorted_unique (fun k1 k2 : Z * Z * Z => lexico k1 k2 \/ k1 = k2)).
  - apply (StronglySorted_fmap key keyLe); [done|]. apply sort_sorted.
  - by apply (StronglySorted_fmap key keyLe).
  - apply fmap_Permutation, sort_permutation.
Qed.

End SortFacts.

(** both merge sorts conform *)
Lemma notBefore_total comp : StrictWeakOrdering comp -> Total (notBefore comp).
Proof.
  intros Hc x y. unfold notBefore.
  destruct (comp y x) eqn:Hyx; [|by left]. right.
  destruct (comp x y) eqn:Hxy; [|done].
  by rewrite <- (swo_irreflexive comp Hc x), <- (swo_transitive comp Hc x y x).
Qed.

Lemma notBefore_trans comp : StrictWeakOrdering comp -> Transitive (notBefore comp).
Proof.
  intros Hc x y z Hxy Hyz. unfold notBefore in *.
  destruct (comp z x) eqn:Hzx; [|done].
  destruct (swo_comparison comp Hc z y x Hzx); congruence.
Qed.

Lemma merge_StdSort_conforms : @StdSortConforms merge_StdSort.
Proof.
  split; intros comp l Hc; simpl.
  - apply merge_sort_Permutation.
  - apply StronglySorted_merge_sort;
      [by apply notBefore_trans | by apply notBefore_total].
Qed.

Lemma backward_StdSort_conforms : @StdSortConforms backward_StdSort.
Proof.
  split; intros comp l Hc; simpl.
  - rewrite merge_sort_Permutation. apply reverse_Permutation.
  - apply StronglySorted_merge_sort;
      [by apply notBefore_trans | by apply notBefore_total].
Qed.

(** ** Runs, [std::unique] and the adjacency count *)

Lemma runs_head (y : Digit) (tl : list Digit) :
  exists run more, runs (y :: tl) = (y :: run) :: more.
Proof.
  revert y. induction tl as [|z tl IH]; intros y; simpl; [by eauto|].
  destruct (IH z) as (run & more & Hr). simpl in Hr. rewrite Hr.
  case_decide; eauto.
Qed.

Lemma runs_cons (x y : Digit) (tl run more : list _) :
  runs (y :: tl) = (y :: run) :: more ->
  runs (x :: y :: tl) =
  if decide (key x = key y) then (x :: y :: run) :: more
  else [x] :: (y :: run) :: more.
Proof. intros Hr. change (runs (x :: y :: tl)) with
  (match runs (y :: tl) with
   | (y' :: run') :: more' =>
       if decide (key x = key y') then (x :: y' :: run') :: more'
       else [x] :: (y' :: run') :: more'
   | _ => [[x]]
   end). by rewrite Hr.
Qed.

(** the runs cut the partition, and a run holds one key *)
Lemma runs_concat (l : list Digit) : concat (runs l) = l.
Proof.
  induction l as [|x [|y tl] IH]; [done..|].
  destruct (runs_head y tl) as (run & more & Hr).
  rewrite (runs_cons x y tl run more Hr). rewrite Hr in IH.
  case_decide; simpl in *; by rewrite IH.
Qed.

Lemma runs_one_key (l : list Digit) :
  Forall (fun run => exists x, head run = Some x
                               /\ Forall (fun y => key y = key x) run) (runs l).
Proof.
  induction l as [|x [|y tl] IH].
  - constructor.
  - repeat constructor. exists x. by repeat constructor.
  - destruct (runs_head y tl) as (run & more & Hr).
    rewrite (runs_cons x y tl run more Hr). rewrite Hr in IH.
    apply Forall_cons in IH as [(y' & [= <-] & Hy) Hmore].
    case_decide as Hk.
    + constructor; [|done]. exists x. split; [done|]. constructor; [done|].
      eapply Forall_impl; [exact Hy|]. simpl. congruence.
    + constructor; [exists x; by repeat constructor|].
      constructor; [|done]. by exists y.
Qed.

(** neighbouring runs hold different keys: the runs are maximal *)
Lemma runs_maximal (l : list Digit) (i : nat) (r1 r2 : list Digit) (a b : Digit) :
  runs l !! i = Some r1 -> runs l !! S i = Some r2 ->
  head r1 = Some a -> head r2 = Some b -> key a <> key b.
Proof.
  revert i r1 r2 a b. induction l as [|x [|y tl] IH]; intros i r1 r2 a b; [done| |].
  - by destruct i.
  - destruct (runs_head y tl) as (run & more & Hr).
    rewrite (runs_cons x y tl run more Hr). rewrite Hr in IH.
    case_decide as Hk.
    + destruct i as [|i]; simpl.
      * intros [= <-] H2 [= <-] Hb. rewrite Hk.
        by apply (IH 0%nat (y :: run) r2 y b).
      * intros H1 H2. by apply (IH (S i) r1 r2).
    + destruct i as [|i]; simpl.
      * by intros [= <-] [= <-] [= <-] [= <-].
      * intros H1 H2. by apply (IH i r1 r2).
Qed.

Lemma unique_from_step pred dest x tl :
  fst (std_unique_from pred dest (x :: tl)) =
  if fst (pred dest x) then fst (std_unique_from pred dest tl)
  else x :: fst (std_unique_from pred x tl).
Proof.
  simpl. destruct (pred dest x) as [[] t]; simpl;
    by destruct (std_unique_from pred _ tl).
Qed.

Lemma unique_from_same_key (a b : Digit) (l : list Digit) :
  key a = key b ->
  fst (std_unique_from isEqual a l) = fst (std_unique_from isEqual b l).
Proof.
  intros Hk. induction l as [|x tl IH]; [done|].
  rewrite !unique_from_step, IH.
  destruct (fst (isEqual a x)) eqn:Ea, (fst (isEqual b x)) eqn:Eb; try done.
  - apply isEqual_key in Ea. apply not_true_iff_false in Eb.
    rewrite isEqual_key in Eb. congruence.
  - apply isEqual_key in Eb. apply not_true_iff_false in Ea.
    rewrite isEqual_key in Ea. congruence.
Qed.

Lemma unique_cons pred x tl :
  fst (std_unique pred (x :: tl)) = x :: fst (std_unique_from pred x tl).
Proof. simpl. by destruct (std_unique_from pred x tl). Qed.

(** [std::unique] keeps the first entry of every run *)
Lemma unique_representatives (l : list Digit) :
  fst (std_unique isEqual l) = representatives l.
Proof.
  unfold representatives.
  induction l as [|x [|y tl] IH]; [done..|].
  destruct (runs_head y tl) as (run & more & Hr).
  rewrite (runs_cons x y tl run more Hr).
  rewrite unique_cons in IH |- *. rewrite Hr in IH. simpl in IH.
  injection IH as IH. rewrite unique_from_step.
  case_decide as Hk.
  - rewrite (proj2 (isEqual_key x y) Hk).
    by rewrite (unique_from_same_key x y tl Hk), IH.
  - destruct (fst (isEqual x y)) eqn:E; [by apply isEqual_key in E|].
    simpl. by rewrite IH.
Qed.

Lemma length_representatives (l : list Digit) :
  length (representatives l) = length (runs l).
Proof.
  unfold representatives. pose proof (runs_one_key l) as Hr.
  induction Hr as [|run more (x & Hx & _) _ IH]; [done|].
  csimpl. rewrite Hx. csimpl. by rewrite IH.
Qed.

Lemma length_runs (l : list Digit) : length l = (length (runs l) + surplus l)%nat.
Proof.
  unfold surplus. rewrite <- (runs_concat l) at 1.
  pose proof (runs_one_key l) as Hr.
  induction Hr as [|run more (x & Hx & _) _ IH]; [done|].
  simpl. rewrite length_app, IH. destruct run; [done|]. simpl. lia.
Qed.

(** what [std::unique] removes is the surplus of the runs *)
Lemma unique_removed (l : list Digit) :
  (length l - length (fst (std_unique isEqual l)))%nat = surplus l.
Proof.
  rewrite unique_representatives, length_representatives, (length_runs l). lia.
Qed.

Lemma count_adjacent_step pred prev x tl :
  fst (count_adjacent pred prev (x :: tl)) =
  ((if fst (pred prev x) then 1 else 0) + fst (count_adjacent pred x tl))%nat.
Proof.
  simpl. destruct (pred prev x) as [eq t]; simpl.
  by destruct (count_adjacent pred x tl).
Qed.

(** the report-only loop counts the same surplus *)
Lemma count_adjacent_surplus (x : Digit) (tl : list Digit) :
  fst (count_adjacent isEqual x tl) = surplus (x :: tl).
Proof.
  revert x. induction tl as [|y tl IH]; intros x; [done|].
  rewrite count_adjacent_step, IH.
  destruct (runs_head y tl) as (run & more & Hr).
  unfold surplus. rewrite (runs_cons x y tl run more Hr), Hr.
  case_decide as Hk.
  - by rewrite (proj2 (isEqual_key x y) Hk).
  - destruct (fst (isEqual x y)) eqn:E; [by apply isEqual_key in E|]. done.
Qed.

(** one debug line per duplicate, in both modes *)
Lemma unique_from_logged (dest : Digit) (l : list Digit) :
  (length (snd (std_unique_from isEqual dest l))
   + length (fst (std_unique_from isEqual dest l)))%nat = length l.
Proof.
  revert dest. induction l as [|x tl IH]; intros dest; [done|]. simpl.
  destruct (isEqual dest x) as [eq t] eqn:E.
  assert (length t = if eq then 1 else 0)%nat as Ht.
  { unfold isEqual in E. by destruct (_ && _); injection E as <- <-. }
  destruct eq.
  - specialize (IH dest). destruct (std_unique_from isEqual dest tl).
    simpl in *. rewrite length_app. lia.
  - specialize (IH x). destruct (std_unique_from isEqual x tl).
    simpl in *. rewrite length_app. lia.
Qed.

Lemma unique_logged (l : list Digit) :
  length (snd (std_unique isEqual l)) = surplus l.
Proof.
  rewrite <- unique_removed. destruct l as [|x tl]; [done|].
  pose proof (unique_from_logged x tl). simpl.
  destruct (std_unique_from isEqual x tl). simpl in *. lia.
Qed.

Lemma count_adjacent_logged (x : Digit) (tl : list Digit) :
  length (snd (count_adjacent isEqual x tl)) = fst (count_adjacent isEqual x tl).
Proof.
  revert x. induction tl as [|y tl IH]; intros x; [done|]. simpl.
  specialize (IH y). destruct (isEqual x y) as [eq t] eqn:E.
  assert (length t = if eq then 1 else 0)%nat as Ht.
  { unfold isEqual in E. by destruct (_ && _); injection E as <- <-. }
  destruct (count_adjacent isEqual y tl); simpl in *. rewrite length_app. lia.
Qed.

(** nothing to find in a strictly sorted partition *)
Lemma isEqual_keyLt (a b : Digit) : keyLt a b -> isEqual a b = (false, []).
Proof.
  intros Hlt. pose proof (isEqual_key a b) as Hk.
  unfold isEqual in *. destruct (_ && _); [|done].
  exfalso. unfold keyLt in Hlt. rewrite (proj1 Hk eq_refl) in Hlt.
  by apply (irreflexivity lexico (key b)).
Qed.

Lemma unique_from_strict (x : Digit) (tl : list Digit) :
  strictlySorted (x :: tl) -> std_unique_from isEqual x tl = (tl, []).
Proof.
  revert x. induction tl as [|y tl IH]; intros x Hs; [done|].
  apply StronglySorted_inv in Hs as [Hs Hx]. simpl.
  rewrite isEqual_keyLt by by apply Forall_cons in Hx as [? _].
  by rewrite (IH y Hs).
Qed.

Lemma count_adjacent_strict (x : Digit) (tl : list Digit) :
  strictlySorted (x :: tl) -> count_adjacent isEqual x tl = (0%nat, []).
Proof.
  revert x. induction tl as [|y tl IH]; intros x Hs; [done|].
  apply StronglySorted_inv in Hs as [Hs Hx]. simpl.
  rewrite isEqual_keyLt by by apply Forall_cons in Hx as [? _].
  by rewrite (IH y Hs).
Qed.

(** [std::unique] turns a sorted partition into a strictly sorted one *)
Lemma unique_from_sorted (dest : Digit) (l : list Digit) :
  sortedDigits l -> Forall (keyLe dest) l ->
  strictlySorted (fst (std_unique_from isEqual dest l))
  /\ Forall (keyLt dest) (fst (std_unique_from isEqual dest l)).
Proof.
  revert dest. induction l as [|x tl IH]; intros dest Hs Hd.
  - split; constructor.
  - apply StronglySorted_inv in Hs as [Hs Hx].
    apply Forall_cons in Hd as [Hdx Hd].
    rewrite unique_from_step.
    destruct (fst (isEqual dest x)) eqn:E.
    + by apply IH.
    + destruct (IH x Hs Hx) as [IH1 IH2].
      assert (keyLt dest x) as Hlt.
      { destruct Hdx as [?|Hk]; [done|]. apply isEqual_key in Hk. congruence. }
      split; [by constructor|]. constructor; [done|].
      eapply Forall_impl; [exact IH2|]. intros z ?. by trans x.
Qed.

Lemma unique_sorted (l : list Digit) :
  sortedDigits l -> strictlySorted (representatives l).
Proof.
  rewrite <- unique_representatives. destruct l as [|x tl]; [constructor|].
  intros [Hs Hx]%StronglySorted_inv. rewrite unique_cons.
  destruct (unique_from_sorted x tl Hs Hx). by constructor.
Qed.

(** ** The sector loop and the methods on the store *)

Lemma checkSector_remove (iSec : nat) (l : list Digit) :
  exists debug,
    checkSector true iSec l
      = (representatives l, surplus l,
         debug ++ duplicateWarning true (surplus l) iSec)
    /\ length debug = surplus l.
Proof.
  destruct l as [|x tl]; [by exists []|].
  pose proof (unique_representatives (x :: tl)) as Hk.
  pose proof (unique_removed (x :: tl)) as Hn.
  pose proof (unique_logged (x :: tl)) as Hl.
  unfold checkSector. destruct (std_unique isEqual (x :: tl)) as [kept t].
  cbn [fst snd] in Hk, Hn, Hl. subst kept. exists t. by rewrite Hn.
Qed.

Lemma checkSector_report (iSec : nat) (l : list Digit) :
  exists debug,
    checkSector false iSec l
      = (l, surplus l, debug ++ duplicateWarning false (surplus l) iSec)
    /\ length debug = surplus l.
Proof.
  destruct l as [|x tl]; [by exists []|].
  pose proof (count_adjacent_surplus x tl) as Hn.
  pose proof (count_adjacent_logged x tl) as Hl.
  unfold checkSector. destruct (count_adjacent isEqual x tl) as [n t].
  cbn [fst snd] in Hn, Hl. subst n. by exists t.
Qed.

Lemma checkSector_strict (removeDuplicates : bool) (iSec : nat) (l : list Digit) :
  strictlySorted l -> checkSector removeDuplicates iSec l = (l, 0%nat, []).
Proof.
  intros Hs. destruct l as [|x tl]; [done|]. unfold checkSector.
  destruct removeDuplicates.
  - simpl. rewrite (unique_from_strict x tl Hs). simpl.
    by rewrite Nat.sub_diag.
  - by rewrite (count_adjacent_strict x tl Hs).
Qed.

Lemma set_mDigits_same (d : DigitDump) : set_mDigits (mDigits d) d = d.
Proof. by destruct d. Qed.

Section StoreFacts.
Context `{StdSort}.

Lemma checkSector_afterPass (removeDuplicates : bool) (iSec : nat) (l : list Digit) :
  fst (fst (checkSector removeDuplicates iSec (std_sort digitLess l)))
  = afterPass removeDuplicates l.
Proof.
  destruct removeDuplicates.
  - by destruct (checkSector_remove iSec (std_sort digitLess l)) as (? & -> & _).
  - by destruct (checkSector_report iSec (std_sort digitLess l)) as (? & -> & _).
Qed.

Lemma sortDigits_returns (d : DigitDump) :
  sortDigits d = Returns tt (set_mDigits (map (std_sort digitLess) (mDigits d)) d) [].
Proof. done. Qed.

Lemma checkDuplicates_returns (removeDuplicates : bool) (d : DigitDump) :
  checkDuplicates removeDuplicates d =
  Returns tt
    (set_mDigits (map (afterPass removeDuplicates) (mDigits d)) d)
    (concat (imap (fun iSec l =>
                     snd (checkSector removeDuplicates iSec (std_sort digitLess l)))
               (mDigits d))).
Proof.
  unfold checkDuplicates, sortDigits. run.
  change (map ?f ?l) with (f <$> l).
  rewrite !fmap_imap, !imap_fmap, app_nil_r.
  erewrite (imap_ext _ (const (afterPass removeDuplicates))).
  - by rewrite imap_const.
  - intros i l _. simpl. apply checkSector_afterPass.
Qed.

Lemma endEvent_returns (d : DigitDump) (entries : list (list (list Digit))) :
  mTree d = Some entries ->
  endEvent d =
  Returns tt
    (set_mDigits (map (fun _ => []) (mDigits d))
       (set_mTree (Some (entries ++ [map (std_sort digitLess) (mDigits d)])) d))
    [].
Proof.
  intros Ht. unfold endEvent, sortDigits, TTree_Fill, clearDigits. run.
  rewrite Ht. simpl. by rewrite map_map.
Qed.

End StoreFacts.

(** ** Claims about sorting, the end of an event and duplicates *)

Section StoreProperties.
Context `{StdSortConforms}.

(** C3, as amended.  [sortDigits] replaces every partition by what
    [std::sort] makes of it: a permutation of the partition in
    non-decreasing lexicographic order of (time-bin, row, pad).  The order
    of entries tied on all three keys is not fixed.  Sorting a partition
    that is sorted already keeps the sequence of keys, and keeps the
    partition itself when no two of its entries share a key. *)
Theorem sortDigits_orders_partitions (d : DigitDump) :
  sortDigits d
    = Returns tt (set_mDigits (map (std_sort digitLess) (mDigits d)) d) []
  /\ forall l : list Digit,
       std_sort digitLess l ≡ₚ l
       /\ sortedDigits (std_sort digitLess l)
       /\ (sortedDigits l -> map key (std_sort digitLess l) = map key l)
       /\ (sortedDigits l -> duplicateFree l -> std_sort digitLess l = l).
Proof.
  split; [done|]. intros l.
  split; [apply sort_permutation|]. split; [apply sort_sorted|].
  split; [apply sort_keys|].
  intros Hs Hnd. by apply sort_strictlySorted, sorted_duplicateFree_strict.
Qed.

(** C2, as amended.  With an output tree, [endEvent] sorts, fills the tree
    and clears, in that order: the entry added to the tree holds every
    partition sorted, as a permutation of what was stored, and afterwards
    every partition is empty.  Duplicates are not removed on the way: an
    emitted partition is free of duplicates exactly when the stored one
    was. *)
Theorem endEvent_emits_sorted_then_clears (d : DigitDump)
    (entries : list (list (list Digit))) :
  mTree d = Some entries ->
  exists d',
    endEvent d = Returns tt d' []
    /\ mTree d' = Some (entries ++ [map (std_sort digitLess) (mDigits d)])
    /\ Forall2 (fun emitted stored =>
                  emitted ≡ₚ stored /\ sortedDigits emitted
                  /\ (duplicateFree emitted <-> duplicateFree stored))
         (map (std_sort digitLess) (mDigits d)) (mDigits d)
    /\ length (mDigits d') = length (mDigits d)
    /\ Forall (fun l => l = []) (mDigits d').
Proof.
  intros Ht. eexists. split; [by apply endEvent_returns|]. simpl.
  split; [done|]. split; [|split].
  - apply Forall2_fmap_l, Forall_Forall2_diag, Forall_forall. intros l _.
    split; [apply sort_permutation|]. split; [apply sort_sorted|].
    apply sort_duplicateFree.
  - by rewrite length_map.
  - apply Forall_forall. intros l (? & -> & _)%list_elem_of_fmap. done.
Qed.

Lemma afterPass_strict (b : bool) (l : list Digit) :
  strictlySorted l -> afterPass b l = l.
Proof.
  intros Hs. unfold afterPass. rewrite (sort_strictlySorted l Hs).
  destruct b; [|done]. rewrite <- unique_representatives.
  destruct l as [|x tl]; [done|]. simpl. by rewrite (unique_from_strict x tl Hs).
Qed.

(** C4.  After [checkDuplicates(true)] every partition is strictly
    increasing in the key.  A second call, with either policy, returns with
    the object as it is and logs nothing: in every sector the scan of the
    (re-sorted) partition keeps it, counts 0 duplicates and writes no
    line. *)
Theorem checkDuplicates_remove_idempotent (d : DigitDump) (again : bool) :
  exists d1 t1,
    checkDuplicates true d = Returns tt d1 t1
    /\ Forall strictlySorted (mDigits d1)
    /\ checkDuplicates again d1 = Returns tt d1 []
    /\ forall iSec l,
         mDigits d1 !! iSec = Some l ->
         checkSector again iSec (std_sort digitLess l) = (l, 0%nat, []).
Proof.
  eexists _, _. split; [apply checkDuplicates_returns|].
  set (d1 := set_mDigits _ d).
  assert (Forall strictlySorted (mDigits d1)) as Hs.
  { simpl. apply Forall_forall. intros l (p & -> & _)%list_elem_of_fmap.
    apply unique_sorted, sort_sorted. }
  split; [done|]. split.
  - rewrite checkDuplicates_returns. f_equal.
    + trans (set_mDigits (mDigits d1) d1); [|apply set_mDigits_same].
      f_equal. trans (id <$> mDigits d1); [|apply list_fmap_id].
      apply Forall_fmap_ext_1. eapply Forall_impl; [exact Hs|].
      intros l Hl. by apply afterPass_strict.
    + erewrite (imap_ext _ (const (fun _ => []))).
      * rewrite imap_const. clear. induction (mDigits d1); [done|]. by csimpl.
      * intros i l Hl. simpl.
        rewrite Forall_lookup in Hs. specialize (Hs i l Hl).
        rewrite (sort_strictlySorted l Hs). by rewrite checkSector_strict.
  - intros iSec l Hl. rewrite Forall_lookup in Hs. specialize (Hs iSec l Hl).
    rewrite (sort_strictlySorted l Hs). by apply checkSector_strict.
Qed.

(** C5.  [checkDuplicates] returns; it first sorts, and then, for the
    sorted partition [s] of every sector: in remove mode the sector keeps
    the first entry of every maximal run of entries with one key, and the
    count is the number of entries removed, run length minus one summed
    over the runs; in report-only mode the sector keeps [s], a permutation
    of what it held, and the count is the same.  A non-zero count is logged
    in the warning line, after one debug line per duplicate. *)
Theorem checkDuplicates_collapses_runs (removeDuplicates : bool) (d : DigitDump) :
  exists d' t,
    checkDuplicates removeDuplicates d = Returns tt d' t
    /\ mDigits d' = map (afterPass removeDuplicates) (mDigits d)
    /\ t = concat (imap (fun iSec l =>
                     snd (checkSector removeDuplicates iSec (std_sort digitLess l)))
                  (mDigits d))
    /\ forall iSec l,
         mDigits d !! iSec = Some l ->
         let s := std_sort digitLess l in
         s ≡ₚ l /\ sortedDigits s /\ concat (runs s) = s
         /\ afterPass true l = representatives s
         /\ (exists debug,
               checkSector true iSec s
                 = (representatives s, surplus s,
                    debug ++ duplicateWarning true (surplus s) iSec)
               /\ length debug = surplus s)
         /\ (length s - length (representatives s))%nat = surplus s
         /\ afterPass false l = s
         /\ (exists debug,
               checkSector false iSec s
                 = (s, surplus s, debug ++ duplicateWarning false (surplus s) iSec)
               /\ length debug = surplus s).
Proof.
  eexists _, _. split; [apply checkDuplicates_returns|]. simpl.
  split; [done|]. split; [done|]. intros iSec l _.
  split; [apply sort_permutation|]. split; [apply sort_sorted|].
  split; [apply runs_concat|]. split; [done|].
  split; [apply checkSector_remove|].
  split; [|split; [done | apply checkSector_report]].
  rewrite <- unique_representatives. apply unique_removed.
Qed.

End StoreProperties.

(** ** The properties on sample objects *)

Example sample_init :
  init (mkDigitDumpParam 0 1000 (Float.of_Z 0) (Float.of_Z 100) (Float.of_Z 3)
          "calib.root")
       uncalibrated
  = Returns tt (calibrated 3) [].
Proof. reflexivity. Qed.

(** The examples of the specification: signal 12 over pedestal 2 gives the
    corrected charge 10, inside the window 0 to 100, and is stored; with
    noise 4 and threshold 3 the same sample is below 12 and is dropped. *)
Example sample_accepted :
  exists d' t,
    @updateCRU tpcGeometry calibFiles 5 2 3 7 (Float.of_Z 12) (calibrated (-1))
      = Returns 0 d' t
    /\ mDigits d' !! 0%nat = Some [mkDigit 5 (Float.of_Z 10) 83 3 7].
Proof. eexists _, _. split; [by vm_compute|]. by vm_compute. Qed.

Example sample_rejected_as_noise :
  exists d' t,
    @updateCRU tpcGeometry calibFiles 5 2 3 7 (Float.of_Z 12) (calibrated 3)
      = Returns 0 d' t
    /\ mDigits d' = mDigits (calibrated 3).
Proof. eexists _, _. split; [by vm_compute|]. by vm_compute. Qed.

(** the numbers of the samples are binary32 values *)
Example sample_values_are_floats :
  forallb Float.valid
    [Float.of_Z 12; Float.of_Z 2; Float.of_Z 4; Float.of_Z 3; Float.of_Z 10;
     Float.of_Z 0; Float.of_Z 100; Float.of_Z (-1); Float.of_Z (-100);
     Float.zero; Float.infinity; Float.nan] = true.
Proof. by vm_compute. Qed.

(** C6 on a sample: time bin 2000 is beyond 1000; the call returns at once,
    although the calibration file of the object does not exist. *)
Lemma time_window_rejects_first_witness :
  (2000 < mFirstTimeBin missingFile \/ 2000 > mLastTimeBin missingFile)
  /\ @updateCRU tpcGeometry calibFiles 5 2 3 2000 (Float.of_Z 12) missingFile
     = Returns 0 missingFile [].
Proof.
  assert (2000 < mFirstTimeBin missingFile \/ 2000 > mLastTimeBin missingFile)
    as Hout by (right; reflexivity).
  split; [exact Hout|].
  exact (@time_window_rejects_first tpcGeometry calibFiles missingFile
           5 2 3 2000 (Float.of_Z 12) Hout).
Defined.

(** C10 on a sample: the masked pad gives 1. *)
Lemma return_value_flags_masked_only_witness :
  exists d' t,
    @updateCRU tpcGeometry calibFiles 5 2 3 7 (Float.of_Z 12) maskedPad
      = Returns 1 d' t.
Proof.
  destruct (@return_value_flags_masked_only tpcGeometry calibFiles maskedPad
              5 2 3 7 (Float.of_Z 12)) as [Hvalue Hreturns].
  destruct (Hreturns (set_mInitialized true maskedPad) [LOG_WARNING_no_file_name]
              (fun _ => conj eq_refl (ex_intro _ [] eq_refl)))
    as (r & d' & t & Hr).
  exists d', t. rewrite Hr. f_equal.
  apply (Hvalue r d' t Hr).
  vm_compute in Hr. injection Hr as _ <- _.
  split; [by vm_compute|]. split; [by vm_compute|].
  split; [by intros [? _]|]. split; [apply list_elem_of_here | done].
Defined.

(** C8 on a sample: the masked pad is rejected, the store is as before. *)
Lemma masked_pad_rejected_last_witness :
  inTimeWindow maskedPad 7
  /\ @updateCRU tpcGeometry calibFiles 5 2 3 7 (Float.of_Z 12) maskedPad
     = Returns 1 (set_mInitialized true maskedPad) [LOG_WARNING_no_file_name]
  /\ mDigits (set_mInitialized true maskedPad) = mDigits maskedPad.
Proof.
  assert (inTimeWindow maskedPad 7) as Hin by (by vm_compute).
  split; [exact Hin|].
  apply (proj2 (@masked_pad_rejected_last tpcGeometry calibFiles maskedPad
                  5 2 3 7 (Float.of_Z 12)) Hin
           (set_mInitialized true maskedPad) [LOG_WARNING_no_file_name] eq_refl).
  - by vm_compute.
  - by intros [? _].
  - apply list_elem_of_here.
Defined.

(** C7 on a sample: charge 10 under noise 4 times threshold 3. *)
Lemma noise_rejection_condition_witness :
  exists d1 t,
    @updateCRU tpcGeometry calibFiles 5 2 3 7 (Float.of_Z 12) (calibrated 3)
      = Returns 0 d1 t
    /\ noiseCondition d1 (@noiseOf tpcGeometry d1 5 2 3)
         (@correctedCharge tpcGeometry d1 5 2 3 (Float.of_Z 12)).
Proof.
  set (d1 := set_mInitialized true
               (set_tables (Some (mkCalPad (fun _ _ _ => Float.of_Z 2)))
                  (Some (mkCalPad (fun _ _ _ => Float.of_Z 4))) (calibrated 3))).
  assert (noiseCondition d1 (@noiseOf tpcGeometry d1 5 2 3)
            (@correctedCharge tpcGeometry d1 5 2 3 (Float.of_Z 12))) as Hn
    by (by vm_compute).
  exists d1, ([Open "calib.root"] ++ @lookups tpcGeometry d1 5 2 3).
  split; [|exact Hn].
  apply (@noise_rejection_condition tpcGeometry calibFiles (calibrated 3)
           5 2 3 7 (Float.of_Z 12) d1 [Open "calib.root"]);
    [by vm_compute | reflexivity | by vm_compute | exact Hn].
Defined.

(** C1 on a sample: the stored charge 10 lies between 0 and 100. *)
Lemma accepted_charge_within_bounds_witness :
  exists d' t,
    @updateCRU tpcGeometry calibFiles 5 2 3 7 (Float.of_Z 12) (calibrated (-1))
      = Returns 0 d' t
    /\ mDigits d' <> mDigits (calibrated (-1))
    /\ mDigits d'
       = @appended tpcGeometry 5 (mkDigit 5 (Float.of_Z 10) 83 3 7)
           (mDigits (calibrated (-1)))
    /\ Float.leb (Float.of_Z 0) (Float.of_Z 10) = true
    /\ Float.leb (Float.of_Z 10) (Float.of_Z 100) = true.
Proof.
  set (d' := set_mDigits
               (<[0%nat := [mkDigit 5 (Float.of_Z 10) 83 3 7]]> (replicate 36 []))
               (set_mInitialized true
                  (set_tables (Some (mkCalPad (fun _ _ _ => Float.of_Z 2)))
                     (Some (mkCalPad (fun _ _ _ => Float.of_Z 4)))
                     (calibrated (-1))))).
  assert (mDigits d' <> mDigits (calibrated (-1))) as Hchg by (by vm_compute).
  destruct (@accepted_charge_within_bounds tpcGeometry calibFiles (calibrated (-1))
              5 2 3 7 (Float.of_Z 12) 0 d'
              [Open "calib.root"; Lookup Pedestals 36 20 3; Lookup Noise 36 20 3]
              eq_refl Hchg)
    as (Happ & _ & _ & _ & _ & _ & Hin).
  exists d', [Open "calib.root"; Lookup Pedestals 36 20 3; Lookup Noise 36 20 3].
  split; [reflexivity|]. split; [exact Hchg|]. split; [exact Happ|].
  apply Hin; reflexivity.
Defined.

(** C9 on samples: no path, a warning and zero pedestal and noise; a path
    to a file that does not exist, the fatal end. *)
Lemma table_load_soft_or_fatal_witness :
  @loadNoiseAndPedestal calibFiles uncalibrated
    = Returns tt uncalibrated [LOG_WARNING_no_file_name]
  /\ @loadNoiseAndPedestal calibFiles missingFile
     = Aborts [Open "none.root"; LOG_FATAL_could_not_open "none.root"].
Proof.
  split.
  - apply (@table_load_soft_or_fatal tpcGeometry calibFiles uncalibrated).
    reflexivity.
  - apply (@table_load_soft_or_fatal tpcGeometry calibFiles missingFile);
      [discriminate | exact I].
Defined.

(** C1 as stated fails: a pedestal that is not a number gives a corrected
    charge that is not a number; both comparisons of the amplitude check
    are false on it, the digit is stored, and its charge is not between
    [ADCMin] and [ADCMax]. *)
Lemma accepted_charge_not_a_number :
  exists d' t digit,
    @updateCRU tpcGeometry calibFiles 5 2 3 7 (Float.of_Z 12) deadPads
      = Returns 0 d' t
    /\ mDigits deadPads !! 0%nat = Some []
    /\ mDigits d' !! 0%nat = Some [digit]
    /\ getChargeFloat digit
       = Float.sub (Float.of_Z 12) (@pedestalOf tpcGeometry d' 5 2 3)
    /\ Float.leb (mADCMin deadPads) (getChargeFloat digit) = false
    /\ Float.leb (getChargeFloat digit) (mADCMax deadPads) = false.
Proof.
  eexists _, _, _. split; [by vm_compute|].
  split; [by vm_compute|]. split; [by vm_compute|]. by vm_compute.
Qed.

(** C7 as stated fails in its last part: with an infinite threshold and
    noise 0 (here: no noise table) the product is not a number, the
    comparison with it is false, and a sample with the negative corrected
    charge -1 that passed the amplitude check is stored, not rejected. *)
Lemma negative_charge_not_rejected :
  @ensureInitialized calibFiles infiniteThreshold
    = Returns tt (set_mInitialized true infiniteThreshold) [LOG_WARNING_no_file_name]
  /\ inTimeWindow infiniteThreshold 7
  /\ @noiseOf tpcGeometry (set_mInitialized true infiniteThreshold) 5 2 3
     = Float.zero
  /\ @correctedCharge tpcGeometry (set_mInitialized true infiniteThreshold) 5 2 3
       (Float.of_Z (-1))
     = Float.of_Z (-1)
  /\ passesAmplitude (set_mInitialized true infiniteThreshold) (Float.of_Z (-1))
  /\ Float.gtb (mNoiseThreshold infiniteThreshold) Float.zero = true
  /\ Float.leb Float.zero Float.zero = true
  /\ Float.ltb (Float.of_Z (-1)) Float.zero = true
  /\ ~ noiseCondition (set_mInitialized true infiniteThreshold) Float.zero
        (Float.of_Z (-1))
  /\ exists d' t,
       @updateCRU tpcGeometry calibFiles 5 2 3 7 (Float.of_Z (-1)) infiniteThreshold
         = Returns 0 d' t
       /\ mDigits d' !! 0%nat = Some [mkDigit 5 (Float.of_Z (-1)) 83 3 7].
Proof.
  do 8 (split; [by vm_compute|]). split; [by intros [_ ?]|].
  eexists _, _. split; by vm_compute.
Qed.

(** The example partition of the specification, under the two sorts: both
    results are sorted, the tie of the two digits at (5, 2, 3) is broken
    either way, and the duplicate that survives differs. *)
Example sample_partition_sorted :
  @std_sort backward_StdSort digitLess [dg 5 2 3 10; dg 3 1 1 5; dg 5 2 3 9]
    = [dg 3 1 1 5; dg 5 2 3 10; dg 5 2 3 9]
  /\ @std_sort merge_StdSort digitLess [dg 5 2 3 10; dg 3 1 1 5; dg 5 2 3 9]
     = [dg 3 1 1 5; dg 5 2 3 9; dg 5 2 3 10].
Proof. split; by vm_compute. Qed.

Example sample_partition_deduplicated :
  fst (checkSector true 0 [dg 3 1 1 5; dg 5 2 3 10; dg 5 2 3 9])
    = ([dg 3 1 1 5; dg 5 2 3 10], 1%nat)
  /\ fst (checkSector false 0 [dg 3 1 1 5; dg 5 2 3 10; dg 5 2 3 9])
     = ([dg 3 1 1 5; dg 5 2 3 10; dg 5 2 3 9], 1%nat)
  /\ fst (checkSector true 0 [dg 3 1 1 5; dg 5 2 3 9; dg 5 2 3 10])
     = ([dg 3 1 1 5; dg 5 2 3 9], 1%nat).
Proof. repeat split; by vm_compute. Qed.

(** C3 on a sample. *)
Lemma sortDigits_orders_partitions_witness :
  @sortDigits merge_StdSort (holding [dg 5 2 3 10; dg 3 1 1 5] None)
    = Returns tt (holding [dg 3 1 1 5; dg 5 2 3 10] None) []
  /\ sortedDigits (@std_sort merge_StdSort digitLess [dg 5 2 3 10; dg 3 1 1 5]).
Proof.
  destruct (@sortDigits_orders_partitions merge_StdSort merge_StdSort_conforms
              (holding [dg 5 2 3 10; dg 3 1 1 5] None)) as [Hd Hl].
  split.
  - rewrite Hd. by vm_compute.
  - apply (Hl [dg 5 2 3 10; dg 3 1 1 5]).
Defined.

(** C3 as stated fails: the sort that reads its input backwards conforms
    to [std::sort], yet on a sorted partition of two digits tied on the key
    it swaps them, so it is neither stable nor the identity there. *)
Lemma std_sort_reorders_ties :
  @StdSortConforms backward_StdSort
  /\ sortedDigits [dg 5 2 3 10; dg 5 2 3 9]
  /\ @std_sort backward_StdSort digitLess [dg 5 2 3 10; dg 5 2 3 9]
     = [dg 5 2 3 9; dg 5 2 3 10]
  /\ ~ stableOn (@std_sort backward_StdSort digitLess [dg 5 2 3 10; dg 5 2 3 9])
         [dg 5 2 3 10; dg 5 2 3 9]
  /\ @std_sort backward_StdSort digitLess [dg 5 2 3 10; dg 5 2 3 9]
     <> [dg 5 2 3 10; dg 5 2 3 9].
Proof.
  split; [apply backward_StdSort_conforms|]. split.
  { apply SSorted_cons; [apply SSorted_cons; [apply SSorted_nil | apply Forall_nil_2]|].
    apply Forall_cons_2; [by right | apply Forall_nil_2]. }
  split; [by vm_compute|]. split.
  - intros Hst. specialize (Hst (5, 2, 3)). by vm_compute in Hst.
  - by vm_compute.
Qed.

(** C2 on a sample. *)
Lemma endEvent_emits_sorted_then_clears_witness :
  exists d',
    @endEvent merge_StdSort (holding [dg 5 2 3 10; dg 3 1 1 5] (Some [])) 
      = Returns tt d' []
    /\ mTree d' = Some [<[0%nat := [dg 3 1 1 5; dg 5 2 3 10]]> (replicate 36 [])]
    /\ Forall (fun l => l = []) (mDigits d').
Proof.
  destruct (@endEvent_emits_sorted_then_clears merge_StdSort merge_StdSort_conforms
              (holding [dg 5 2 3 10; dg 3 1 1 5] (Some [])) [] eq_refl)
    as (d' & Hr & Ht & _ & _ & Hc).
  exists d'. split; [exact Hr|]. split; [|exact Hc].
  rewrite Ht. by vm_compute.
Defined.

(** C2 as stated fails: the same sample accepted twice is in the store
    twice, and [endEvent] emits the partition with both entries. *)
Lemma endEvent_emits_duplicates :
  exists d1 t1 d2 t2 d3 emitted,
    @updateCRU tpcGeometry calibFiles 5 2 3 7 (Float.of_Z 12) toFile
      = Returns 0 d1 t1
    /\ @updateCRU tpcGeometry calibFiles 5 2 3 7 (Float.of_Z 12) d1
       = Returns 0 d2 t2
    /\ @endEvent merge_StdSort d2 = Returns tt d3 []
    /\ mTree d3 = Some [emitted]
    /\ emitted !! 0%nat
       = Some [mkDigit 5 (Float.of_Z 12) 83 3 7; mkDigit 5 (Float.of_Z 12) 83 3 7]
    /\ ~ duplicateFree
           [mkDigit 5 (Float.of_Z 12) 83 3 7; mkDigit 5 (Float.of_Z 12) 83 3 7].
Proof.
  eexists _, _, _, _, _, _. do 5 (split; [by vm_compute|]).
  intros Hnd. apply NoDup_cons in Hnd as [Hnotin _]. apply Hnotin.
  apply list_elem_of_here.
Qed.

(** C4 on a sample. *)
Lemma checkDuplicates_remove_idempotent_witness :
  exists d1 t1,
    @checkDuplicates merge_StdSort true
        (holding [dg 5 2 3 10; dg 3 1 1 5; dg 5 2 3 9] None)
      = Returns tt d1 t1
    /\ @checkDuplicates merge_StdSort true d1 = Returns tt d1 []
    /\ mDigits d1 !! 0%nat = Some [dg 3 1 1 5; dg 5 2 3 9].
Proof.
  destruct (@checkDuplicates_remove_idempotent merge_StdSort merge_StdSort_conforms
              (holding [dg 5 2 3 10; dg 3 1 1 5; dg 5 2 3 9] None) true)
    as (d1 & t1 & Hr & _ & Hagain & _).
  exists d1, t1. split; [exact Hr|]. split; [exact Hagain|].
  vm_compute in Hr. injection Hr as <- _. by vm_compute.
Defined.

(** C5 on a sample. *)
Lemma checkDuplicates_collapses_runs_witness :
  exists d' t,
    @checkDuplicates merge_StdSort true
        (holding [dg 5 2 3 10; dg 3 1 1 5; dg 5 2 3 9] None)
      = Returns tt d' t
    /\ mDigits d' !! 0%nat = Some [dg 3 1 1 5; dg 5 2 3 9]
    /\ In (LOG_warning_duplicates true 1 0) t.
Proof.
  destruct (@checkDuplicates_collapses_runs merge_StdSort merge_StdSort_conforms
              true (holding [dg 5 2 3 10; dg 3 1 1 5; dg 5 2 3 9] None))
    as (d' & t & Hr & Hd & Ht & _).
  exists d', t. split; [exact Hr|]. split.
  - rewrite Hd. by vm_compute.
  - rewrite Ht. vm_compute. auto.
Defined.

(** * Further properties of DigitDump.cxx *)

(** ** The comparison and the equality of the scan *)

(** X1.  The comparison [sortDigits] hands to [std::sort] is the strict
    lexicographic order of (time stamp, row, pad), and it is a strict weak
    ordering, which is what [std::sort] requires of it. *)
Theorem digitLess_lexicographic_strict_weak :
  StrictWeakOrdering digitLess
  /\ forall a b : Digit,
       digitLess a b = true <->
       getTimeStamp a < getTimeStamp b
       \/ getTimeStamp a = getTimeStamp b
          /\ (getRow a < getRow b
              \/ getRow a = getRow b /\ getPad a < getPad b).
Proof.
  split; [apply digitLess_swo|]. intros a b. unfold digitLess.
  destruct (Z.ltb_spec (getTimeStamp a) (getTimeStamp b)),
    (Z.eqb_spec (getTimeStamp a) (getTimeStamp b)),
    (Z.ltb_spec (getRow a) (getRow b)),
    (Z.eqb_spec (getRow a) (getRow b)),
    (Z.ltb_spec (getPad a) (getPad b)); split; intros; try done; lia.
Qed.

Lemma isEqual_incomparable (a b : Digit) :
  fst (isEqual a b) = true <-> digitLess a b = false /\ digitLess b a = false.
Proof.
  rewrite isEqual_key, !digitLess_false. unfold keyLe. split.
  - intros Hk. split; right; congruence.
  - intros [[Hba|Hk] [Hab|Hk']]; try congruence.
    exfalso. by apply (irreflexivity keyLt a); trans b.
Qed.

(** X2.  The predicate of the duplicate scan holds exactly for two digits
    that the sort comparison does not order either way, whatever their
    charge and CRU; it logs one debug line, naming the second digit first,
    exactly when it holds. *)
Theorem isEqual_matches_sort_order (a b : Digit) :
  (fst (isEqual a b) = true
   <-> digitLess a b = false /\ digitLess b a = false)
  /\ (fst (isEqual a b) = true
      <-> getTimeStamp a = getTimeStamp b /\ getRow a = getRow b
          /\ getPad a = getPad b)
  /\ snd (isEqual a b)
     = if fst (isEqual a b) then [LOG_debug_found_twice b a] else [].
Proof.
  split; [apply isEqual_incomparable|]. split.
  - rewrite isEqual_key. unfold key. split; [by intros [= -> -> ->]|].
    by intros (-> & -> & ->).
  - unfold isEqual. by destruct (_ && _).
Qed.

(** ** What the duplicate scan keeps and reports *)

Lemma representatives_sublist (l : list Digit) : representatives l `sublist_of` l.
Proof.
  unfold representatives.
  induction l as [|x [|y tl] IH]; [done | by apply sublist_skip |].
  destruct (runs_head y tl) as (run & more & Hr).
  rewrite (runs_cons x y tl run more Hr). rewrite Hr in IH. csimpl in IH.
  case_decide; csimpl; apply sublist_skip; [|done].
  trans (y :: omap head more); [by apply sublist_cons | done].
Qed.

Lemma representatives_keys (l : list Digit) (k : Z * Z * Z) :
  k ∈ map key (representatives l) <-> k ∈ map key l.
Proof.
  unfold representatives.
  induction l as [|x [|y tl] IH]; [done..|].
  destruct (runs_head y tl) as (run & more & Hr).
  rewrite (runs_cons x y tl run more Hr). rewrite Hr in IH. csimpl in IH.
  case_decide as Hk; csimpl.
  - rewrite Hk. rewrite (elem_of_cons (key y :: _)), <- IH.
    rewrite !elem_of_cons. tauto.
  - by rewrite elem_of_cons, IH, (elem_of_cons (key y :: _)).
Qed.

Lemma sublist_same_length {A} (l1 l2 : list A) :
  l1 `sublist_of` l2 -> length l1 = length l2 -> l1 = l2.
Proof.
  induction 1 as [|x l1 l2 Hs IH|x l1 l2 Hs IH]; simpl; intros Hl; [done| |].
  - f_equal. apply IH. lia.
  - apply sublist_length in Hs. lia.
Qed.

Lemma surplus_zero (s : list Digit) :
  sortedDigits s -> surplus s = 0%nat <-> duplicateFree s.
Proof.
  intros Hs. split.
  - intros H0. apply strictlySorted_duplicateFree.
    rewrite <- (sublist_same_length _ _ (representatives_sublist s)).
    + by apply unique_sorted.
    + rewrite length_representatives, (length_runs s). lia.
  - intros Hnd. pose proof (sorted_duplicateFree_strict s Hs Hnd) as Hst.
    destruct (checkSector_report 0 s) as (debug & Hc & _).
    rewrite (checkSector_strict false 0 s Hst) in Hc.
    apply (f_equal (fun p => snd (fst p))) in Hc. by simpl in Hc.
Qed.

Lemma isEqual_lines (a b : Digit) : Forall isDebugLine (snd (isEqual a b)).
Proof. unfold isEqual. destruct (_ && _); by repeat constructor. Qed.

Lemma unique_from_lines (dest : Digit) (l : list Digit) :
  Forall isDebugLine (snd (std_unique_from isEqual dest l)).
Proof.
  revert dest. induction l as [|x tl IH]; intros dest; [constructor|]. simpl.
  pose proof (isEqual_lines dest x) as Hl.
  destruct (isEqual dest x) as [[] t]; simpl in Hl.
  - specialize (IH dest). destruct (std_unique_from isEqual dest tl).
    by apply Forall_app.
  - specialize (IH x). destruct (std_unique_from isEqual x tl).
    by apply Forall_app.
Qed.

Lemma count_adjacent_lines (x : Digit) (tl : list Digit) :
  Forall isDebugLine (snd (count_adjacent isEqual x tl)).
Proof.
  revert x. induction tl as [|y tl IH]; intros x; [constructor|]. simpl.
  pose proof (isEqual_lines x y) as Hl. specialize (IH y).
  destruct (isEqual x y) as [eq t], (count_adjacent isEqual y tl).
  by apply Forall_app.
Qed.

(** the lines a sector logs: debug lines, then the warning when there is
    something to warn of *)
Lemma checkSector_lines (removeDuplicates : bool) (iSec : nat) (s : list Digit) :
  exists debug,
    snd (checkSector removeDuplicates iSec s)
      = debug ++ duplicateWarning removeDuplicates (surplus s) iSec
    /\ Forall isDebugLine debug /\ length debug = surplus s.
Proof.
  destruct s as [|x tl]; [by exists []|]. destruct removeDuplicates.
  - pose proof (unique_removed (x :: tl)) as Hn.
    pose proof (unique_logged (x :: tl)) as Hl.
    pose proof (unique_from_lines x tl) as Hd.
    unfold checkSector. simpl in *.
    destruct (std_unique_from isEqual x tl) as [kept t]. simpl in *.
    exists t. by rewrite Hn.
  - pose proof (count_adjacent_surplus x tl) as Hn.
    pose proof (count_adjacent_logged x tl) as Hl.
    pose proof (count_adjacent_lines x tl) as Hd.
    unfold checkSector.
    destruct (count_adjacent isEqual x tl) as [n t]. cbn [fst snd] in *.
    subst n. by exists t.
Qed.

Lemma checkSector_silent (removeDuplicates : bool) (iSec : nat) (s : list Digit) :
  snd (checkSector removeDuplicates iSec s) = [] <-> surplus s = 0%nat.
Proof.
  destruct (checkSector_lines removeDuplicates iSec s) as (debug & -> & _ & Hl).
  unfold duplicateWarning. split.
  - intros [-> _]%app_eq_nil. done.
  - intros H0. rewrite H0 in *. by destruct debug.
Qed.

Lemma checkSector_warning (removeDuplicates b : bool) (iSec n j : nat)
    (s : list Digit) :
  LOG_warning_duplicates b n j ∈ snd (checkSector removeDuplicates iSec s)
  <-> b = removeDuplicates /\ j = iSec /\ n = surplus s /\ n <> 0%nat.
Proof.
  destruct (checkSector_lines removeDuplicates iSec s) as (debug & -> & Hd & _).
  rewrite elem_of_app. unfold duplicateWarning. split.
  - intros [Hin|Hin].
    + rewrite Forall_forall in Hd. by apply Hd in Hin.
    + destruct (Nat.eqb_spec (surplus s) 0); [by apply elem_of_nil in Hin|].
      apply list_elem_of_singleton in Hin. by injection Hin as -> -> ->.
  - intros (-> & -> & -> & Hn). right.
    destruct (Nat.eqb_spec (surplus s) 0); [done|]. apply list_elem_of_here.
Qed.

Lemma elem_of_concat {A} (x : A) (ls : list (list A)) :
  x ∈ concat ls <-> exists l, l ∈ ls /\ x ∈ l.
Proof.
  induction ls as [|l0 ls IH]; simpl.
  - split; [by intros ?%elem_of_nil | by intros (? & ?%elem_of_nil & _)].
  - rewrite elem_of_app, IH. split.
    + intros [?|(l & ? & ?)]; [exists l0 | exists l]; split; try done.
      * apply list_elem_of_here.
      * by apply list_elem_of_further.
    + intros (l & [->|?]%elem_of_cons & ?); [by left | right; eauto].
Qed.

Lemma concat_nils {A B} (l : list A) :
  concat ((fun _ => @nil B) <$> l) = [].
Proof. induction l; [done|]. by csimpl. Qed.

Section ScanProperties.
Context `{StdSortConforms}.

(** X3.  [checkDuplicates(true)] always returns and touches nothing but
    the store.  Every sector keeps its place; what it holds afterwards is
    sorted, has no two entries with the same (time stamp, row, pad)
    anywhere in it, consists of digits it held before, and shows exactly
    the keys it showed before, so no pad and time bin is lost; a sector
    that held digits still holds some. *)
Theorem checkDuplicates_remove_keeps_one_per_key (d : DigitDump) :
  exists d' t,
    checkDuplicates true d = Returns tt d' t
    /\ sameButStore d d'
    /\ length (mDigits d') = length (mDigits d)
    /\ forall iSec l,
         mDigits d !! iSec = Some l ->
         exists l',
           mDigits d' !! iSec = Some l'
           /\ duplicateFree l' /\ sortedDigits l'
           /\ l' ⊆+ l
           /\ (forall k, k ∈ map key l' <-> k ∈ map key l)
           /\ (l <> [] -> l' <> []).
Proof.
  eexists _, _. split; [apply checkDuplicates_returns|].
  split; [by destruct d|]. split; [simpl; by rewrite length_map|].
  intros iSec l Hl. exists (representatives (std_sort digitLess l)).
  split; [simpl; change (map ?f ?x) with (f <$> x); by rewrite list_lookup_fmap, Hl|].
  pose proof (unique_sorted _ (sort_sorted l)) as Hst.
  assert (forall k, k ∈ map key (representatives (std_sort digitLess l))
                    <-> k ∈ map key l) as Hkeys.
  { intros k. rewrite representatives_keys.
    change (map key ?x) with (key <$> x). by rewrite (sort_permutation l). }
  split; [by apply strictlySorted_duplicateFree|].
  split; [by apply strictlySorted_sorted|].
  split; [rewrite <- (sort_permutation l) at 2;
          apply sublist_submseteq, representatives_sublist|].
  split; [done|].
  intros Hne Hnil. destruct l as [|x tl]; [done|].
  specialize (Hkeys (key x)). rewrite Hnil in Hkeys. simpl in Hkeys.
  apply elem_of_nil with (x := key x), Hkeys, list_elem_of_here.
Qed.

(** X4.  With either policy [checkDuplicates] logs nothing at all exactly
    when no sector holds two entries with the same key; and it logs the
    warning for a sector, with the policy and a count, exactly when that
    sector holds duplicates, the count then being the number of surplus
    entries of the sector (never 0). *)
Theorem checkDuplicates_warns_of_duplicates (removeDuplicates : bool)
    (d : DigitDump) :
  exists d' t,
    checkDuplicates removeDuplicates d = Returns tt d' t
    /\ (t = [] <-> Forall duplicateFree (mDigits d))
    /\ forall (b : bool) (n iSec : nat),
         LOG_warning_duplicates b n iSec ∈ t
         <-> exists l,
               mDigits d !! iSec = Some l
               /\ ~ duplicateFree l
               /\ b = removeDuplicates
               /\ n = surplus (std_sort digitLess l) /\ n <> 0%nat.
Proof.
  eexists _, _. split; [apply checkDuplicates_returns|].
  assert (forall l, surplus (std_sort digitLess l) = 0%nat <-> duplicateFree l)
    as Hzero.
  { intros l. rewrite (surplus_zero _ (sort_sorted l)). apply sort_duplicateFree. }
  split.
  - rewrite Forall_lookup. split.
    + intros Hnil i l Hl. apply Hzero, (checkSector_silent removeDuplicates i).
      assert (snd (checkSector removeDuplicates i (std_sort digitLess l))
              ∈ imap (fun iSec l => snd (checkSector removeDuplicates iSec
                                          (std_sort digitLess l))) (mDigits d))
        as Hin by (apply elem_of_lookup_imap; eauto).
      destruct (snd (checkSector removeDuplicates i (std_sort digitLess l)))
        as [|e es]; [done|].
      assert (e ∈ @nil Effect) as []%elem_of_nil.
      rewrite <- Hnil. apply elem_of_concat. eexists. split; [exact Hin|].
      apply list_elem_of_here.
    + intros Hall.
      erewrite (imap_ext _ (const (fun _ => []))).
      * rewrite imap_const. apply concat_nils.
      * intros i l Hl. simpl. apply checkSector_silent, Hzero, (Hall i l Hl).
  - intros b n iSec. rewrite elem_of_concat. split.
    + intros (lines & (i & l & -> & Hl)%elem_of_lookup_imap & Hin).
      apply checkSector_warning in Hin as (-> & -> & -> & Hn).
      exists l. split; [done|]. split; [|done]. by rewrite <- Hzero.
    + intros (l & Hl & _ & -> & -> & Hn). eexists. split.
      * apply elem_of_lookup_imap. eauto.
      * by apply checkSector_warning.
Qed.

End ScanProperties.

(** ** More on the filter *)

Module FloatEdge.
Import Float.

Lemma sub_zero (x : Float_t) : sub x zero = x.
Proof. by destruct x as [[]|[]| |[] m e]. Qed.

Lemma compare_refl (x : Float_t) : is_nan x = false -> SFcompare x x = Some Eq.
Proof.
  destruct x as [s|[]| |[] m e]; simpl; try done;
    intros _; by rewrite Z.compare_refl, Pos.compare_cont_refl.
Qed.

Lemma ltb_irrefl (x : Float_t) : ltb x x = false.
Proof.
  unfold ltb, SFltb. destruct (is_nan x) eqn:Hx.
  - by destruct x.
  - by rewrite compare_refl.
Qed.

Lemma mul_zero_finite (m : positive) (e : Z) :
  mul zero (S754_finite false m e) = zero.
Proof. done. Qed.

Lemma ltb_leb_trans_nan (x y : Float_t) : leb x y = true -> is_nan x = false.
Proof. by destruct x, y. Qed.

End FloatEdge.

Section MoreOnTheFilter.
Context `{Geometry} `{FileSystem}.

(** the ways a call of [updateCRU] returns *)
Lemma updateCRU_returns d cru row pad timeBin signal r d' t :
  updateCRU cru row pad timeBin signal d = Returns r d' t ->
  (~ inTimeWindow d timeBin /\ r = 0 /\ d' = d /\ t = [])
  \/ (inTimeWindow d timeBin
      /\ exists d1 t1,
           ensureInitialized d = Returns tt d1 t1
           /\ t = t1 ++ lookups d1 cru row pad
           /\ ((d' = d1 /\ (r = 0 \/ r = 1))
               \/ (r = 0
                   /\ passesAmplitude d1 (correctedCharge d1 cru row pad signal)
                   /\ ~ noiseCondition d1 (noiseOf d1 cru row pad)
                          (correctedCharge d1 cru row pad signal)
                   /\ ~ masked d1 cru row pad
                   /\ is_Some (mDigits d1 !! sector cru)
                   /\ d' = set_mDigits
                             (appended cru (digitOf d1 cru row pad timeBin signal)
                                (mDigits d1)) d1))).
Proof.
  intros Hr. destruct (decide (inTimeWindow d timeBin)) as [Hin|Hout].
  2:{ left. rewrite updateCRU_outside in Hr by by apply outside_window.
      by injection Hr as <- <- <-. }
  right. split; [done|].
  rewrite (updateCRU_inside _ _ _ _ _ _ Hin) in Hr.
  destruct (ensureInitialized d) as [[] d1 t1| |]; [|done..].
  exists d1, t1. split; [done|].
  set (c := correctedCharge d1 cru row pad signal) in *.
  set (n := noiseOf d1 cru row pad) in *.
  destruct (decide (Float.ltb c (mADCMin d1) || Float.gtb c (mADCMax d1) = false))
    as [Ha%amplitude_test|Ha].
  2:{ rewrite verdict_amplitude in Hr by by rewrite <- amplitude_test.
      simpl in Hr. injection Hr as <- <- <-. rewrite app_nil_r. by auto. }
  destruct (decide (Float.gtb (mNoiseThreshold d1) Float.zero
                    && Float.ltb c (Float.mul n (mNoiseThreshold d1)) = true))
    as [Hn%noise_test|Hn].
  { rewrite verdict_noise in Hr by done.
    simpl in Hr. injection Hr as <- <- <-. rewrite app_nil_r. by auto. }
  rewrite noise_test in Hn.
  destruct (decide (masked d1 cru row pad)) as [Hm|Hm].
  { rewrite verdict_masked in Hr by done.
    simpl in Hr. injection Hr as <- <- <-. rewrite app_nil_r. by auto. }
  rewrite verdict_accept in Hr by done.
  destruct (mDigits d1 !! sector cru) as [digits|] eqn:Hd; [|done].
  simpl in Hr. injection Hr as <- <- <-. rewrite app_nil_r.
  split; [done|]. right. by eauto 10.
Qed.

Lemma storeInvariant_settings (d d1 : DigitDump) :
  sameSettings d d1 -> storeInvariant d -> storeInvariant d1.
Proof.
  intros (Hf & Hl & _ & _ & _ & _ & Hd) Hinv iSec l.
  rewrite Hd. intros Hl'. eapply Forall_impl; [exact (Hinv iSec l Hl')|].
  unfold inTimeWindow. simpl. intros digit. by rewrite Hf, Hl.
Qed.

(** X5.  [updateCRU] keeps the store well-formed: if before a call that
    returns every stored digit has its time stamp inside the time window
    and sits in the sector of its CRU, the same holds after it.  The call
    never changes the number of sectors, and it leaves alone every sector
    but that of the CRU, where what was stored stays in front. *)
Theorem updateCRU_keeps_store_invariant d cru row pad timeBin signal r d' t :
  updateCRU cru row pad timeBin signal d = Returns r d' t ->
  (storeInvariant d -> storeInvariant d')
  /\ length (mDigits d') = length (mDigits d)
  /\ (forall iSec, iSec <> sector cru -> mDigits d' !! iSec = mDigits d !! iSec)
  /\ (forall l, mDigits d !! sector cru = Some l ->
        exists l', mDigits d' !! sector cru = Some l' /\ l `prefix_of` l'
                   /\ (length l' <= S (length l))%nat).
Proof.
  intros [(_ & _ & -> & _)|(Hin & d1 & t1 & Hinit & _ & Hcase)]%updateCRU_returns.
  { split; [done|]. split; [done|]. split; [done|].
    intros l Hl. exists l. split; [done|]. split; [done|]. lia. }
  apply ensureInitialized_settings in Hinit as [Hset _].
  pose proof Hset as (Hf & Hl & _ & _ & _ & _ & Hd).
  destruct Hcase as [[-> _]|(_ & _ & _ & _ & [digits Hdig] & ->)].
  { split; [by apply storeInvariant_settings|]. rewrite Hd.
    split; [done|]. split; [done|].
    intros l Hl'. exists l. split; [done|]. split; [done|]. lia. }
  simpl. unfold appended. rewrite length_alter, Hd.
  split; [|split; [done|split]].
  - intros Hinv%(storeInvariant_settings d d1 Hset) iSec l. simpl.
    destruct (decide (iSec = sector cru)) as [->|Hne].
    + rewrite list_lookup_alter_eq. rewrite <- Hd, Hdig. intros [= <-].
      apply Forall_app. split.
      * eapply Forall_impl; [exact (Hinv _ _ Hdig)|]. done.
      * apply Forall_singleton. split; [|done].
        unfold inTimeWindow in *. simpl. lia.
    + rewrite list_lookup_alter_ne by done. rewrite <- Hd. intros Hl'.
      eapply Forall_impl; [exact (Hinv _ _ Hl')|]. done.
  - intros iSec Hne. by rewrite list_lookup_alter_ne.
  - intros l Hl'. rewrite list_lookup_alter_eq, Hl'. simpl.
    eexists. split; [done|]. split; [by apply prefix_app_r|].
    rewrite length_app. simpl. lia.
Qed.

(** X6.  The object is initialised once: a call inside the time window
    that returns leaves [mInitialized] set, and a call on an initialised
    object never ends in [LOG(FATAL)], opens no file and logs nothing: its
    trace is empty outside the window and otherwise the reads of the
    tables there are, pedestal first; tables, settings and tree stay as
    they are. *)
Theorem initialised_once d cru row pad timeBin signal :
  (forall r d' t,
     inTimeWindow d timeBin ->
     updateCRU cru row pad timeBin signal d = Returns r d' t ->
     mInitialized d' = true)
  /\ (mInitialized d = true ->
      (forall t, updateCRU cru row pad timeBin signal d <> Aborts t)
      /\ forall r d' t,
           updateCRU cru row pad timeBin signal d = Returns r d' t ->
           t = (if decide (inTimeWindow d timeBin) then lookups d cru row pad
                else [])
           /\ sameButStore d' d).
Proof.
  split.
  - intros r d' t Hin [(Hout & _)|(_ & d1 & t1 & Hinit & _ & Hcase)]%updateCRU_returns;
      [done|].
    apply ensureInitialized_settings in Hinit as [_ Hi].
    by destruct Hcase as [[-> _]|(_ & _ & _ & _ & _ & ->)].
  - intros Hi. split.
    + intros t. destruct (decide (inTimeWindow d timeBin)) as [Hin|Hout].
      * rewrite (updateCRU_inside _ _ _ _ _ _ Hin).
        unfold ensureInitialized. rewrite Hi. unfold verdict.
        repeat match goal with
               | |- context [if ?b then _ else _] => destruct b
               end; simpl; done.
      * by rewrite updateCRU_outside by by apply outside_window.
    + intros r d' t Hr. apply updateCRU_returns in Hr
        as [(Hout & _ & -> & ->)|(Hin & d1 & t1 & Hinit & -> & Hcase)].
      * rewrite decide_False by done. split; [done|]. by destruct d.
      * rewrite decide_True by done.
        unfold ensureInitialized in Hinit. rewrite Hi in Hinit.
        injection Hinit as <- <-. split; [done|].
        destruct Hcase as [[-> _]|(_ & _ & _ & _ & _ & ->)]; by destruct d.
Qed.

End MoreOnTheFilter.

Section CalibrationEdges.
Context `{Geometry} `{FileSystem}.

(** X7.  Without a pedestal table the digit a call appends carries the raw
    signal itself as its charge (subtracting the default pedestal 0 changes
    no float, not even -0, an infinity or NaN), together with the CRU, the
    pad, the time bin and the row counted within the sector. *)
Theorem uncalibrated_charge_is_raw_signal d cru row pad timeBin signal r d' t :
  updateCRU cru row pad timeBin signal d = Returns r d' t ->
  mDigits d' <> mDigits d ->
  mPedestal d' = None ->
  mDigits d'
  = appended cru (mkDigit cru signal (row + getGlobalRowOffset (region cru)) pad timeBin)
      (mDigits d).
Proof.
  intros [(_ & _ & -> & _)|(_ & d1 & t1 & Hinit & _ & Hcase)]%updateCRU_returns
    Hchg Hped; [done|].
  apply ensureInitialized_settings in Hinit as [(_ & _ & _ & _ & _ & _ & Hd) _].
  destruct Hcase as [[-> _]|(_ & _ & _ & _ & _ & ->)]; [congruence|].
  simpl in *. rewrite Hd. unfold digitOf, correctedCharge, pedestalOf.
  by rewrite Hped, FloatEdge.sub_zero.
Qed.

Lemma rejected_iff_noise d cru row pad timeBin signal d1 t1 :
  inTimeWindow d timeBin ->
  ensureInitialized d = Returns tt d1 t1 ->
  passesAmplitude d1 (correctedCharge d1 cru row pad signal) ->
  updateCRU cru row pad timeBin signal d
    = Returns 0 d1 (t1 ++ lookups d1 cru row pad)
  <-> noiseCondition d1 (noiseOf d1 cru row pad)
        (correctedCharge d1 cru row pad signal).
Proof.
  intros Hin Hinit Ha.
  rewrite (updateCRU_inside _ _ _ _ _ _ Hin), Hinit. split.
  - intros Hr.
    destruct (decide (Float.gtb (mNoiseThreshold d1) Float.zero
                      && Float.ltb (correctedCharge d1 cru row pad signal)
                           (Float.mul (noiseOf d1 cru row pad) (mNoiseThreshold d1))
                      = true)) as [Hn%noise_test|Hn]; [done|]. exfalso.
    rewrite noise_test in Hn.
    destruct (decide (masked d1 cru row pad)) as [Hm|Hm].
    + rewrite verdict_masked in Hr by done. simpl in Hr. done.
    + rewrite verdict_accept in Hr by done.
      destruct (mDigits d1 !! sector cru) as [digits|] eqn:Hd; simpl in Hr;
        [|done].
      injection Hr as Hr _. apply (f_equal mDigits) in Hr. simpl in Hr.
      by eapply appended_changes in Hr; [|rewrite Hd].
  - intros Hn. rewrite verdict_noise by done. simpl. by rewrite app_nil_r.
Qed.

(** X8.  Without a noise table the noise value is 0, and a finite positive
    threshold then makes the noise check a sign check: a sample that passed
    the time and amplitude checks is rejected there exactly when its
    corrected charge is below zero, whatever the threshold. *)
Theorem without_noise_table_sign_check d cru row pad timeBin signal d1 t1 m e :
  inTimeWindow d timeBin ->
  ensureInitialized d = Returns tt d1 t1 ->
  mNoise d1 = None ->
  mNoiseThreshold d1 = S754_finite false m e ->
  passesAmplitude d1 (correctedCharge d1 cru row pad signal) ->
  updateCRU cru row pad timeBin signal d
    = Returns 0 d1 (t1 ++ lookups d1 cru row pad)
  <-> Float.ltb (correctedCharge d1 cru row pad signal) Float.zero = true.
Proof.
  intros Hin Hinit Hnoise Hthr Ha.
  rewrite (rejected_iff_noise _ _ _ _ _ _ _ _ Hin Hinit Ha).
  unfold noiseCondition, noiseOf. rewrite Hnoise, Hthr.
  rewrite FloatEdge.mul_zero_finite. split; [by intros [_ ?] | by split].
Qed.

(** X9.  The amplitude bounds are inclusive: when [ADCMin <= ADCMax], a
    sample whose corrected charge equals either bound passes the amplitude
    check, and if neither the noise check nor the mask rejects it, it is
    appended. *)
Theorem amplitude_bounds_inclusive d cru row pad timeBin signal d1 t1 :
  inTimeWindow d timeBin ->
  ensureInitialized d = Returns tt d1 t1 ->
  Float.leb (mADCMin d1) (mADCMax d1) = true ->
  correctedCharge d1 cru row pad signal = mADCMin d1
  \/ correctedCharge d1 cru row pad signal = mADCMax d1 ->
  passesAmplitude d1 (correctedCharge d1 cru row pad signal)
  /\ (~ noiseCondition d1 (noiseOf d1 cru row pad)
          (correctedCharge d1 cru row pad signal) ->
      ~ masked d1 cru row pad ->
      is_Some (mDigits d1 !! sector cru) ->
      updateCRU cru row pad timeBin signal d
        = Returns 0
            (set_mDigits
               (appended cru (digitOf d1 cru row pad timeBin signal) (mDigits d1))
               d1)
            (t1 ++ lookups d1 cru row pad)).
Proof.
  intros Hin Hinit Hle Hc.
  assert (passesAmplitude d1 (correctedCharge d1 cru row pad signal)) as Ha.
  { unfold passesAmplitude, Float.gtb.
    destruct Hc as [-> | ->]; split;
      auto using FloatEdge.ltb_irrefl, FloatFacts.leb_not_ltb. }
  split; [done|]. intros Hn Hm [digits Hd].
  rewrite (updateCRU_inside _ _ _ _ _ _ Hin), Hinit, verdict_accept, Hd by done.
  simpl. by rewrite app_nil_r.
Qed.

Lemma initInputOutput_result d :
  initInputOutput d =
  match loadNoiseAndPedestal d with
  | Returns _ d0 t0 =>
      if mInMemoryOnly d then Returns tt (set_mInitialized true d0) t0
      else Returns tt (set_mInitialized true (set_mTree (Some []) d0))
             (t0 ++ [Recreate (mDigitFile d)])
  | Aborts t => Aborts t
  | Undefined t => Undefined t
  end.
Proof.
  unfold initInputOutput. run.
  destruct (loadNoiseAndPedestal d) as [[] d0 t0| |] eqn:Hl; simpl; [|done..].
  apply loadNoiseAndPedestal_settings in Hl as (_ & Hm & Hf).
  unfold setupOutputTree. run. rewrite Hm.
  destruct (mInMemoryOnly d); simpl; by rewrite ?Hf, ?app_nil_r.
Qed.

(** X10.  A calibration file that opens is taken as it is: the first call
    inside the time window initialises the object without a warning or a
    fatal line, the tables become the objects the file holds under
    "Pedestals" and "Noise", and an object the file lacks leaves the table
    absent, so that its values are 0, without any complaint. *)
Theorem readable_file_sets_tables d f :
  mInitialized d = false ->
  mPedestalAndNoiseFile d <> EmptyString ->
  TFile_Open (mPedestalAndNoiseFile d) = Some f ->
  IsOpen f = true -> IsZombie f = false ->
  exists d1 t1,
    ensureInitialized d = Returns tt d1 t1
    /\ mPedestal d1 = GetObject_Pedestals f
    /\ mNoise d1 = GetObject_Noise f
    /\ t1 = Open (mPedestalAndNoiseFile d)
            :: (if mInMemoryOnly d then [] else [Recreate (mDigitFile d)])
    /\ (GetObject_Pedestals f = None ->
        forall cru row pad, pedestalOf d1 cru row pad = Float.zero)
    /\ (GetObject_Noise f = None ->
        forall cru row pad, noiseOf d1 cru row pad = Float.zero).
Proof.
  intros Hi Hp Hf Ho Hz. unfold ensureInitialized. rewrite Hi.
  rewrite initInputOutput_result,
    (loadNoiseAndPedestal_readable d f Hp Hf Ho Hz).
  destruct (mInMemoryOnly d); eexists _, _; (split; [reflexivity|]); simpl;
    (split; [done|]); (split; [done|]); (split; [done|]);
    split; intros Hnone cru row pad; unfold pedestalOf, noiseOf; simpl;
    by rewrite Hnone.
Qed.

Lemma ensureInitialized_mask (m : list PadCoord) (d : DigitDump) :
  ensureInitialized (set_mPadMask m d)
  = onObject (set_mPadMask m) (ensureInitialized d).
Proof.
  unfold ensureInitialized. simpl. destruct (mInitialized d); [done|].
  rewrite !initInputOutput_result. unfold loadNoiseAndPedestal. run.
  destruct (Nat.eqb _ 0); simpl; [by destruct (mInMemoryOnly d)|].
  destruct (TFile_Open _) as [f|]; simpl; [|done].
  destruct (negb (IsOpen f) || IsZombie f); simpl; [done|].
  by destruct (mInMemoryOnly d).
Qed.

Lemma after_onObject {A} (f : DigitDump -> DigitDump) (t : list Effect)
    (o : Outcome A) :
  after t (onObject f o) = onObject f (after t o).
Proof. by destruct o. Qed.

(** X11.  The pad mask acts as a set: replacing it by any list with the
    same members (another order, repeated entries) changes no outcome of
    [updateCRU]: same return value, same trace, and the same object but
    for the mask. *)
Theorem pad_mask_is_a_set d cru row pad timeBin signal (m : list PadCoord) :
  (forall coord, coord ∈ m <-> coord ∈ mPadMask d) ->
  updateCRU cru row pad timeBin signal (set_mPadMask m d)
  = onObject (set_mPadMask m) (updateCRU cru row pad timeBin signal d).
Proof.
  intros Hm. destruct (decide (inTimeWindow d timeBin)) as [Hin|Hout].
  2:{ rewrite !updateCRU_outside by by apply outside_window. done. }
  rewrite (updateCRU_inside d _ _ _ _ _ Hin).
  rewrite (updateCRU_inside (set_mPadMask m d)) by done.
  rewrite ensureInitialized_mask.
  destruct (ensureInitialized d) as [[] d1 t1| |] eqn:Hinit; simpl; [|done..].
  apply ensureInitialized_settings in Hinit as [(_ & _ & _ & _ & _ & Hmask & _) _].
  rewrite <- after_onObject. f_equal.
  unfold verdict, masked. simpl.
  change (correctedCharge (set_mPadMask m d1) cru row pad signal)
    with (correctedCharge d1 cru row pad signal).
  change (noiseOf (set_mPadMask m d1) cru row pad) with (noiseOf d1 cru row pad).
  rewrite (bool_decide_ext _ ((roc cru, sectorRowOf cru row, pad) ∈ mPadMask d1))
    by by rewrite Hmask.
  repeat match goal with
         | |- context [if ?b then _ else _] =>
             match type of b with bool => destruct b end
         end; simpl; try done.
  by destruct (mDigits d1 !! sector cru).
Qed.

End CalibrationEdges.

(** ** Events *)

Section Events.
Context `{Geometry} `{FileSystem} `{StdSortConforms}.

Lemma sort_nil : std_sort digitLess [] = [].
Proof. apply Permutation_nil_r, sort_permutation. Qed.

Lemma afterPass_elem_of (b : bool) (l : list Digit) (x : Digit) :
  x ∈ afterPass b l -> x ∈ l.
Proof.
  unfold afterPass. intros Hx. rewrite <- (sort_permutation l).
  destruct b; [|done]. eapply elem_of_sublist; [exact Hx|].
  apply representatives_sublist.
Qed.

(** X12.  Sorting, the duplicate scan and the end of an event keep the
    store well-formed: if every stored digit has its time stamp inside the
    time window and sits in the sector of its CRU, the same holds after
    [sortDigits], after [checkDuplicates] with either policy, and after
    [endEvent]; none of them changes the number of sectors. *)
Theorem store_invariant_kept_by_sort_scan_event (d : DigitDump) :
  storeInvariant d ->
  (forall d' t, sortDigits d = Returns tt d' t ->
     storeInvariant d' /\ length (mDigits d') = length (mDigits d))
  /\ (forall b d' t, checkDuplicates b d = Returns tt d' t ->
        storeInvariant d' /\ length (mDigits d') = length (mDigits d))
  /\ (forall d' t, endEvent d = Returns tt d' t ->
        storeInvariant d' /\ length (mDigits d') = length (mDigits d)).
Proof.
  intros Hinv.
  assert (forall b, storeInvariant
                      (set_mDigits (map (afterPass b) (mDigits d)) d)) as Hpass.
  { intros b iSec l'. simpl. change (map ?f ?x) with (f <$> x).
    rewrite list_lookup_fmap.
    destruct (mDigits d !! iSec) as [l|] eqn:Hl; [|done]. intros [= <-].
    apply Forall_forall. intros x Hx%afterPass_elem_of.
    specialize (Hinv iSec l Hl). rewrite Forall_forall in Hinv. by apply Hinv. }
  split; [|split].
  - intros d' t [= <- _]. split; [apply (Hpass false) | simpl; by rewrite length_map].
  - intros b d' t. rewrite checkDuplicates_returns. intros [= <- _].
    split; [apply Hpass | simpl; by rewrite length_map].
  - intros d' t Hr. destruct (mTree d) as [entries|] eqn:Ht.
    + rewrite (endEvent_returns d entries Ht) in Hr. injection Hr as <- _.
      split; [|simpl; by rewrite length_map].
      intros iSec l. simpl. change (map ?f ?x) with (f <$> x).
      rewrite list_lookup_fmap. destruct (mDigits d !! iSec); [|done].
      by intros [= <-].
    + unfold endEvent, sortDigits, TTree_Fill in Hr. revert Hr. run.
      by rewrite Ht.
Qed.

(** X13.  [endEvent] needs the output tree.  After the first call of
    [updateCRU] inside the time window on an object without a tree: in
    memory-only mode there still is none and [endEvent] dereferences the
    null pointer; otherwise the output file was created and [endEvent]
    returns, the tree then holding one entry, the sorted sectors. *)
Theorem endEvent_needs_the_tree d cru row pad timeBin signal r d' t :
  mInitialized d = false ->
  mTree d = None ->
  inTimeWindow d timeBin ->
  updateCRU cru row pad timeBin signal d = Returns r d' t ->
  (mInMemoryOnly d = true -> endEvent d' = Undefined [])
  /\ (mInMemoryOnly d = false ->
      Recreate (mDigitFile d) ∈ t
      /\ endEvent d'
         = Returns tt
             (set_mDigits (map (fun _ => []) (mDigits d'))
                (set_mTree (Some [map (std_sort digitLess) (mDigits d')]) d'))
             []).
Proof.
  intros Hi Ht Hin
    [(Hout & _)|(_ & d1 & t1 & Hinit & -> & Hcase)]%updateCRU_returns; [done|].
  unfold ensureInitialized in Hinit. rewrite Hi, initInputOutput_result in Hinit.
  destruct (loadNoiseAndPedestal d) as [[] d0 t0| |] eqn:Hl; [|done..].
  assert (mTree d0 = None) as Ht0.
  { revert Hl. unfold loadNoiseAndPedestal. run.
    destruct (Nat.eqb _ 0); simpl; [by intros [= <- _]|].
    destruct (TFile_Open _) as [f|]; simpl; [|done].
    destruct (negb (IsOpen f) || IsZombie f); simpl; [done|].
    by intros [= <- _]. }
  split; intros Hmem; rewrite Hmem in Hinit; injection Hinit as <- <-.
  - assert (mTree d' = None) as Ht'
      by (by destruct Hcase as [[-> _]|(_ & _ & _ & _ & _ & ->)]).
    unfold endEvent, sortDigits, TTree_Fill. run. by rewrite Ht'.
  - split.
    + rewrite !elem_of_app. left. right. apply list_elem_of_here.
    + apply (endEvent_returns d' []).
      by destruct Hcase as [[-> _]|(_ & _ & _ & _ & _ & ->)].
Qed.

(** X14.  Two ends of event in a row add two entries to the tree, after
    the entries it had: the sorted sectors, then an entry in which every
    sector is empty.  Earlier entries are never touched, and the store is
    empty, with all its sectors, afterwards. *)
Theorem endEvent_twice (d : DigitDump) (entries : list (list (list Digit))) :
  mTree d = Some entries ->
  exists d2,
    (endEvent ;; endEvent) d = Returns tt d2 []
    /\ mTree d2
       = Some (entries ++ [map (std_sort digitLess) (mDigits d);
                           map (fun _ => []) (mDigits d)])
    /\ mDigits d2 = map (fun _ => []) (mDigits d).
Proof.
  intros Ht. eexists.
  rewrite (bind_Returns _ _ _ _ _ _ (endEvent_returns d entries Ht)).
  erewrite endEvent_returns by reflexivity. simpl.
  rewrite !map_map, <- (assoc_L (++)). simpl.
  split; [reflexivity|]. simpl. split; [|done].
  do 2 f_equal. f_equal. f_equal. apply map_ext. intros _. apply sort_nil.
Qed.

(** X15.  A digit that [updateCRU] has appended is handed off by the next
    [endEvent]: the entry added to the tree holds it in the sector of its
    CRU, with the corrected charge, the row counted within the sector, the
    pad and the time bin of the sample. *)
Theorem accepted_digit_is_emitted d cru row pad timeBin signal r d' t
    (entries : list (list (list Digit))) :
  updateCRU cru row pad timeBin signal d = Returns r d' t ->
  mDigits d' <> mDigits d ->
  mTree d' = Some entries ->
  exists d'' emitted partition,
    endEvent d' = Returns tt d'' []
    /\ mTree d'' = Some (entries ++ [emitted])
    /\ emitted !! sector cru = Some partition
    /\ mkDigit cru (correctedCharge d' cru row pad signal)
         (row + getGlobalRowOffset (region cru)) pad timeBin ∈ partition.
Proof.
  intros [(_ & _ & -> & _)|(_ & d1 & t1 & Hinit & _ & Hcase)]%updateCRU_returns
    Hchg Ht; [done|].
  apply ensureInitialized_settings in Hinit as [(_ & _ & _ & _ & _ & _ & Hd) _].
  destruct Hcase as [[-> _]|(_ & _ & _ & _ & [digits Hdig] & ->)]; [congruence|].
  eexists _, _, _. split; [by apply endEvent_returns|]. simpl.
  split; [done|]. split.
  - change (map ?f ?x) with (f <$> x).
    rewrite list_lookup_fmap. unfold appended.
    by rewrite list_lookup_alter_eq, Hdig.
  - rewrite sort_permutation. apply elem_of_app. right. apply list_elem_of_here.
Qed.

End Events.

Section Reconfiguration.
Context `{Geometry} `{FileSystem}.

(** X16.  The tables are loaded once only: [init] with new parameters on an
    object that is initialised already takes over the new file name and
    the new settings, but the call of [updateCRU] that follows opens no
    file and works with the tables loaded before. *)
Theorem init_does_not_reload_tables d (param : DigitDumpParam)
    cru row pad timeBin signal r d' t :
  mInitialized d = true ->
  (init param ;; updateCRU cru row pad timeBin signal) d = Returns r d' t ->
  mPedestalAndNoiseFile d' = PedestalAndNoiseFile param
  /\ mFirstTimeBin d' = FirstTimeBin param /\ mLastTimeBin d' = LastTimeBin param
  /\ mPedestal d' = mPedestal d /\ mNoise d' = mNoise d
  /\ forall path : string, ~ Open path ∈ t.
Proof.
  intros Hi. unfold init. run. rewrite after_nil.
  intros [(_ & _ & -> & ->)|(_ & d1 & t1 & Hinit & -> & Hcase)]%updateCRU_returns.
  { do 5 (split; [done|]). intros path Hin. by apply elem_of_nil in Hin. }
  unfold ensureInitialized in Hinit. simpl in Hinit. rewrite Hi in Hinit.
  injection Hinit as <- <-.
  assert (forall path : string,
            ~ Open path ∈ [] ++ lookups (set_parameters param d) cru row pad)
    as Hopen.
  { intros path. unfold lookups. simpl.
    destruct (mPedestal d), (mNoise d); simpl;
      rewrite list_elem_of_In; simpl; intuition discriminate. }
  by destruct Hcase as [[-> _]|(_ & _ & _ & _ & _ & ->)].
Qed.

End Reconfiguration.

(** ** The further properties on sample objects *)

Lemma storeInvariant_holding (partition : list Digit) tree :
  Forall (fun digit => 0 <= getTimeStamp digit <= 1000 /\ getCRU digit / 10 = 0)
    partition ->
  @storeInvariant tpcGeometry (holding partition tree).
Proof.
  intros Hp i l. unfold holding. cbn [mDigits set_mTree set_mDigits].
  destruct (decide (i = 0%nat)) as [->|Hne].
  - rewrite list_lookup_insert_eq by (rewrite length_replicate; lia).
    intros [= <-]. eapply Forall_impl; [exact Hp|]. cbn beta.
    intros digit [? Hs]. split; [done|]. cbn. by rewrite Hs.
  - rewrite list_lookup_insert_ne by done.
    intros [-> _]%lookup_replicate. constructor.
Qed.

(** X3 on a sample. *)
Lemma checkDuplicates_remove_keeps_one_per_key_witness :
  exists d' t,
    @checkDuplicates merge_StdSort true
        (holding [dg 5 2 3 10; dg 3 1 1 5; dg 5 2 3 9] None)
      = Returns tt d' t
    /\ length (mDigits d') = 36%nat.
Proof.
  destruct (@checkDuplicates_remove_keeps_one_per_key merge_StdSort
              merge_StdSort_conforms
              (holding [dg 5 2 3 10; dg 3 1 1 5; dg 5 2 3 9] None))
    as (d' & t & Hr & _ & Hlen & _).
  exists d', t. split; [exact Hr|]. rewrite Hlen. reflexivity.
Defined.

(** X4 on a sample. *)
Lemma checkDuplicates_warns_of_duplicates_witness :
  exists d' t,
    @checkDuplicates merge_StdSort false
        (holding [dg 5 2 3 10; dg 3 1 1 5; dg 5 2 3 9] None)
      = Returns tt d' t
    /\ LOG_warning_duplicates false 1 0 ∈ t.
Proof.
  destruct (@checkDuplicates_warns_of_duplicates merge_StdSort
              merge_StdSort_conforms false
              (holding [dg 5 2 3 10; dg 3 1 1 5; dg 5 2 3 9] None))
    as (d' & t & Hr & _ & Hwarn).
  exists d', t. split; [exact Hr|]. apply Hwarn.
  exists [dg 5 2 3 10; dg 3 1 1 5; dg 5 2 3 9].
  split; [reflexivity|]. split; [|by vm_compute].
  intros Hnd. apply NoDup_cons in Hnd as [Hnotin _]. apply Hnotin.
  apply list_elem_of_further, list_elem_of_here.
Defined.

(** X5 on a sample. *)
Lemma updateCRU_keeps_store_invariant_witness :
  exists r d' t,
    @updateCRU tpcGeometry calibFiles 5 2 3 7 (Float.of_Z 12) uncalibrated
      = Returns r d' t
    /\ @storeInvariant tpcGeometry d'.
Proof.
  eexists _, _, _. split; [vm_compute; reflexivity|].
  refine (proj1 (@updateCRU_keeps_store_invariant tpcGeometry calibFiles
                   uncalibrated 5 2 3 7 (Float.of_Z 12) _ _ _ _) _).
  - vm_compute. reflexivity.
  - apply (storeInvariant_holding [] None). constructor.
Defined.

(** X7 on a sample. *)
Lemma uncalibrated_charge_is_raw_signal_witness :
  exists r d' t,
    @updateCRU tpcGeometry calibFiles 5 2 3 7 (Float.of_Z 12) uncalibrated
      = Returns r d' t
    /\ mDigits d' = <[0%nat := [mkDigit 5 (Float.of_Z 12) 83 3 7]]> (replicate 36 []).
Proof.
  eexists _, _, _. split; [vm_compute; reflexivity|].
  refine (@uncalibrated_charge_is_raw_signal tpcGeometry calibFiles
            uncalibrated 5 2 3 7 (Float.of_Z 12) _ _ _ _ _ _).
  - vm_compute. reflexivity.
  - by vm_compute.
  - reflexivity.
Defined.

(** X8 on a sample: charge -1, threshold 3, no noise table. *)
Lemma without_noise_table_sign_check_witness :
  @updateCRU tpcGeometry calibFiles 5 2 3 7 (Float.of_Z (-1)) thresholdOnly
  = Returns 0 (set_mInitialized true thresholdOnly) [LOG_WARNING_no_file_name].
Proof.
  apply (@without_noise_table_sign_check tpcGeometry calibFiles thresholdOnly
           5 2 3 7 (Float.of_Z (-1)) (set_mInitialized true thresholdOnly)
           [LOG_WARNING_no_file_name] 12582912%positive (-22));
    by vm_compute.
Defined.

(** X9 on a sample: the charge -100 on the lower bound -100. *)
Lemma amplitude_bounds_inclusive_witness :
  exists d' t,
    @updateCRU tpcGeometry calibFiles 5 2 3 7 (Float.of_Z (-100)) uncalibrated
      = Returns 0 d' t
    /\ mDigits d' !! 0%nat = Some [mkDigit 5 (Float.of_Z (-100)) 83 3 7].
Proof.
  destruct (@amplitude_bounds_inclusive tpcGeometry calibFiles uncalibrated
              5 2 3 7 (Float.of_Z (-100)) (set_mInitialized true uncalibrated)
              [LOG_WARNING_no_file_name])
    as [_ Hstored]; [by vm_compute | reflexivity | reflexivity | by left |].
  eexists _, _. split.
  - apply Hstored; [by intros [? _] | by intros ?%elem_of_nil | by eexists].
  - reflexivity.
Defined.

(** X10 on a sample: a file with pedestals and without noise. *)
Lemma readable_file_sets_tables_witness :
  exists d1 t1,
    @ensureInitialized (partialFiles (Some (mkCalPad (fun _ _ _ => Float.of_Z 2))) None)
        (calibrated 3)
      = Returns tt d1 t1
    /\ forall cru row pad, @noiseOf tpcGeometry d1 cru row pad = Float.zero.
Proof.
  destruct (@readable_file_sets_tables tpcGeometry
              (partialFiles (Some (mkCalPad (fun _ _ _ => Float.of_Z 2))) None)
              (calibrated 3)
              (mkTFile true false (Some (mkCalPad (fun _ _ _ => Float.of_Z 2))) None))
    as (d1 & t1 & Hr & _ & _ & _ & _ & Hnoise);
    [reflexivity | discriminate | reflexivity | reflexivity | reflexivity |].
  exists d1, t1. split; [exact Hr|]. by apply Hnoise.
Defined.

(** X11 on a sample: the mask in another order, with a repeated entry. *)
Lemma pad_mask_is_a_set_witness :
  @updateCRU tpcGeometry calibFiles 5 2 3 7 (Float.of_Z 12)
    (set_mPadMask maskedPadAgain maskedOrNot)
  = onObject (set_mPadMask maskedPadAgain)
      (@updateCRU tpcGeometry calibFiles 5 2 3 7 (Float.of_Z 12) maskedOrNot).
Proof.
  apply (@pad_mask_is_a_set tpcGeometry calibFiles maskedOrNot 5 2 3 7
           (Float.of_Z 12) maskedPadAgain).
  intros coord. unfold maskedPadAgain. simpl. rewrite !elem_of_cons. tauto.
Defined.

(** X12 on a sample. *)
Lemma store_invariant_kept_by_sort_scan_event_witness :
  @storeInvariant tpcGeometry
    (set_mDigits
       (map (@std_sort merge_StdSort digitLess)
          (mDigits (holding [dg 5 2 3 10; dg 3 1 1 5] None)))
       (holding [dg 5 2 3 10; dg 3 1 1 5] None)).
Proof.
  refine (proj1 (proj1 (@store_invariant_kept_by_sort_scan_event tpcGeometry
                          merge_StdSort merge_StdSort_conforms
                          (holding [dg 5 2 3 10; dg 3 1 1 5] None) _) _ [] _)).
  - apply storeInvariant_holding. repeat constructor; by vm_compute.
  - reflexivity.
Defined.

(** X13 on a sample: memory-only mode. *)
Lemma endEvent_needs_the_tree_witness :
  exists r d' t,
    @updateCRU tpcGeometry calibFiles 5 2 3 7 (Float.of_Z 12) uncalibrated
      = Returns r d' t
    /\ @endEvent merge_StdSort d' = Undefined [].
Proof.
  eexists _, _, _. split; [vm_compute; reflexivity|].
  refine (proj1 (@endEvent_needs_the_tree tpcGeometry calibFiles merge_StdSort
                   uncalibrated 5 2 3 7 (Float.of_Z 12) _ _ _ _ _ _ _) _).
  - reflexivity.
  - reflexivity.
  - by vm_compute.
  - vm_compute. reflexivity.
  - reflexivity.
Defined.

(** X14 on a sample. *)
Lemma endEvent_twice_witness :
  exists d2,
    (@endEvent merge_StdSort ;; @endEvent merge_StdSort)
      (holding [dg 5 2 3 10; dg 3 1 1 5] (Some [])) = Returns tt d2 []
    /\ mTree d2
       = Some [<[0%nat := [dg 3 1 1 5; dg 5 2 3 10]]> (replicate 36 []);
               replicate 36 []].
Proof.
  destruct (@endEvent_twice merge_StdSort merge_StdSort_conforms
              (holding [dg 5 2 3 10; dg 3 1 1 5] (Some [])) [] eq_refl)
    as (d2 & Hr & Ht & _).
  exists d2. split; [exact Hr|]. rewrite Ht. by vm_compute.
Defined.

(** X15 on a sample. *)
Lemma accepted_digit_is_emitted_witness :
  exists r d' t d'' emitted,
    @updateCRU tpcGeometry calibFiles 5 2 3 7 (Float.of_Z 12) toFile
      = Returns r d' t
    /\ @endEvent merge_StdSort d' = Returns tt d'' []
    /\ mTree d'' = Some [emitted].
Proof.
  destruct (@accepted_digit_is_emitted tpcGeometry calibFiles merge_StdSort
              merge_StdSort_conforms toFile 5 2 3 7 (Float.of_Z 12) 0
              (set_mDigits
                 (<[0%nat := [mkDigit 5 (Float.of_Z 12) 83 3 7]]> (replicate 36 []))
                 (set_mInitialized true (set_mTree (Some []) toFile)))
              [LOG_WARNING_no_file_name; Recreate "digits.root"] [])
    as (d'' & emitted & partition & Hr & Ht & _);
    [reflexivity | by vm_compute | reflexivity |].
  eexists _, _, _, d'', emitted. split; [reflexivity|]. split; [exact Hr|].
  exact Ht.
Defined.

(** X16 on a sample: the object initialised without tables, then pointed
    to the calibration file. *)
Lemma init_does_not_reload_tables_witness :
  exists r d' t,
    (init (mkDigitDumpParam 0 1000 (Float.of_Z 0) (Float.of_Z 100) (Float.of_Z 3)
             "calib.root") ;;
     @updateCRU tpcGeometry calibFiles 5 2 3 7 (Float.of_Z 12))
      (set_mInitialized true uncalibrated) = Returns r d' t
    /\ mPedestalAndNoiseFile d' = "calib.root"
    /\ mPedestal d' = None.
Proof.
  eexists _, _, _. split; [vm_compute; reflexivity|].
  refine (let Hx := @init_does_not_reload_tables tpcGeometry calibFiles
                      (set_mInitialized true uncalibrated)
                      (mkDigitDumpParam 0 1000 (Float.of_Z 0) (Float.of_Z 100)
                         (Float.of_Z 3) "calib.root")
                      5 2 3 7 (Float.of_Z 12) _ _ _ eq_refl _ in
          conj (proj1 Hx) (proj1 (proj2 (proj2 (proj2 Hx))))).
  vm_compute. reflexivity.
Defined.
